(** * Stock Data plugin: the response cache and the tool handlers

    A shallow embedding of [src/index.ts].  JavaScript numbers are IEEE 754
    binary64 values and are embedded as Rocq's primitive floats, which have the
    same format and rounding.  Strings are sequences of code units below 256
    (the ticker symbols, endpoint paths and parameter names this plugin builds
    are ASCII).  The process-wide [Map] behind the cache is a [gmap] from
    strings to entries.  Time values read with [Date.now()] are integral
    numbers of milliseconds far below 2^53, so their arithmetic is exact and is
    carried out in [Z]. *)

From Stdlib Require Import Floats ZArith Ascii String.
From stdpp Require Import gmap strings list pretty.

Local Open Scope Z_scope.

(** ** JavaScript built-in behaviour the source relies on *)
Module Js.

  (** [ToBoolean] on a number: [+0], [-0] and [NaN] are falsy. *)
Definition truthy_number (x : float) : bool :=
  negb (PrimFloat.is_zero x || PrimFloat.is_nan x).

  (** [ToBoolean] on a string: only the empty string is falsy. *)
Definition truthy_string (s : string) : bool :=
  match s with
  | EmptyString => false
  | String _ _ => true
  end.

  (** [a || b] on numbers. *)
Definition or_number (a : option float) (b : float) : float :=
  match a with
  | Some x => if truthy_number x then x else b
  | None => b
  end.

  (** [a || b] on strings, the left operand possibly [undefined]. *)
Definition or_string (a : option string) (b : string) : string :=
  match a with
  | Some s => if truthy_string s then s else b
  | None => b
  end.

Definition is_pos_zero (x : float) : bool :=
  PrimFloat.is_zero x && negb (PrimFloat.get_sign x).

Definition is_neg_zero (x : float) : bool :=
  PrimFloat.is_zero x && PrimFloat.get_sign x.

  (** One iteration of the loop of [Math.max]: replace [highest] by [n] when
      [n > highest], or when [n] is [+0] and [highest] is [-0]. *)
Definition max_step (highest n : float) : float :=
  if PrimFloat.ltb highest n || (is_pos_zero n && is_neg_zero highest)
  then n else highest.

  (** [Math.max(...l)]: [NaN] when an argument is [NaN], [-Infinity] for no
      argument. *)
Definition Math_max (l : list float) : float :=
  if existsb PrimFloat.is_nan l then PrimFloat.nan
  else fold_left max_step l PrimFloat.neg_infinity.

Definition min_step (lowest n : float) : float :=
  if PrimFloat.ltb n lowest || (is_neg_zero n && is_pos_zero lowest)
  then n else lowest.

  (** [Math.min(...l)]. *)
Definition Math_min (l : list float) : float :=
  if existsb PrimFloat.is_nan l then PrimFloat.nan
  else fold_left min_step l PrimFloat.infinity.

  (** The number whose value is the integer [z] (exact below 2^53). *)
Definition number_of_Z (z : Z) : float :=
  SF2Prim (binary_normalize prec emax z 0 false).

  (** [l.join(sep)]. *)
Definition join (sep : string) (l : list string) : string :=
  String.concat sep l.

  (** *** [JSON.stringify] on a [Record<string, string>] *)

Definition dquote : ascii := ascii_of_N 34.
Definition backslash : ascii := ascii_of_N 92.

Definition hex_digit (n : N) : ascii :=
  if (n <? 10)%N then ascii_of_N (48 + n) else ascii_of_N (87 + n).

  (** [QuoteJSONString] on one code unit: the two-character escapes, a
      [\u00xx] escape for the other control characters, the unit itself
      otherwise. *)
Definition escape_char (c : ascii) : string :=
  let n := N_of_ascii c in
  if (n =? 34)%N then String backslash (String dquote EmptyString)
  else if (n =? 92)%N then String backslash (String backslash EmptyString)
  else if (n =? 8)%N then String backslash (String "b" EmptyString)
  else if (n =? 9)%N then String backslash (String "t" EmptyString)
  else if (n =? 10)%N then String backslash (String "n" EmptyString)
  else if (n =? 12)%N then String backslash (String "f" EmptyString)
  else if (n =? 13)%N then String backslash (String "r" EmptyString)
  else if (n <? 32)%N then
    String backslash (String "u" (String "0" (String "0"
      (String (hex_digit (n / 16)) (String (hex_digit (n mod 16)) EmptyString)))))
  else String c EmptyString.

Fixpoint escape (s : string) : string :=
  match s with
  | EmptyString => EmptyString
  | String c s' => escape_char c +:+ escape s'
  end.

Definition quote (s : string) : string :=
  String dquote (escape s +:+ String dquote EmptyString).

  (** An object with string values, as the list of its own enumerable
      properties in enumeration order.  For names that are not array indices
      (every parameter name of this plugin) that is the order in which the
      properties were created, so the order of an object literal. *)
Definition Record_string : Type := list (string * string).

Definition member (p : string * string) : string :=
  quote (fst p) +:+ ":" +:+ quote (snd p).

Definition JSON_stringify (o : Record_string) : string :=
  "{" +:+ join "," (map member o) +:+ "}".

  (** [l.slice(0, e)]: [e] is truncated to an integer, counts from the end
      of [l] when negative, and is clipped to the bounds of [l]. *)
Definition slice_to {A} (e : float) (l : list A) : list A :=
  match Prim2SF e with
  | S754_nan | S754_zero _ => []
  | S754_infinity false => l
  | S754_infinity true => []
  | S754_finite false m x => take (Z.to_nat (Z.shiftl (Z.pos m) x)) l
  | S754_finite true m x =>
      let t := Z.shiftl (Z.pos m) x in
      if t =? 0 then [] else take (Z.to_nat (Z.of_nat (length l) - t)) l
  end.

  (** [url.searchParams.set(k, v)]: the first pair named [k] takes the value
      [v] and the other pairs named [k] are removed; without such a pair
      [(k, v)] is appended. *)
Fixpoint searchParams_set (k v : string) (q : list (string * string))
    : list (string * string) :=
  match q with
  | [] => [(k, v)]
  | (k', v') :: q' =>
      if String.eqb k' k
      then (k, v) :: List.filter (fun p => negb (String.eqb (fst p) k)) q'
      else (k', v') :: searchParams_set k v q'
  end.

End Js.

(** ** Payloads, as the source's interfaces declare them

    Projections share one name space in Rocq, so every field carries a
    prefix for its interface: [q_c] is the field [c] of a quote, [k_c] the
    field [c] of a candle payload. *)

Record FinnhubQuote := {
  q_c : float;   (* current *)
  q_d : float;   (* change *)
  q_dp : float;  (* percent change *)
  q_h : float;   (* high *)
  q_l : float;   (* low *)
  q_o : float;   (* open *)
  q_pc : float;  (* previous close *)
  q_t : float    (* timestamp *)
}.

Record FinnhubProfile := {
  p_country : string;
  p_currency : string;
  p_exchange : string;
  p_finnhubIndustry : string;
  p_ipo : string;
  p_logo : string;
  p_marketCapitalization : float;
  p_name : string;
  p_phone : string;
  p_shareOutstanding : float;
  p_ticker : string;
  p_weburl : string
}.

Record SearchItem := {
  r_description : string;
  r_displaySymbol : string;
  r_symbol : string;
  r_type : string
}.

(** [result] is optional: the search handler tests [!results.result]. *)
Record FinnhubSearchResult := {
  s_count : float;
  s_result : option (list SearchItem)
}.

(** [c] is optional: the candles handler tests [!candles.c]. *)
Record FinnhubCandles := {
  k_c : option (list float);  (* close *)
  k_h : list float;           (* high *)
  k_l : list float;           (* low *)
  k_o : list float;           (* open *)
  k_s : string;               (* status *)
  k_t : list float;           (* timestamps *)
  k_v : list float            (* volume *)
}.

Record FinnhubNewsItem := {
  n_category : string;
  n_datetime : float;
  n_headline : string;
  n_id : float;
  n_image : string;
  n_related : string;
  n_source : string;
  n_summary : string;
  n_url : string
}.

(** [{ metric: Record<string, number | null> }]; [metric] is optional (the
    metrics handler tests [!m]) and a [null] value is [None]. *)
Record FinnhubMetrics := {
  m_metric : option (list (string * option float))
}.

(** What a response body parses to, and so what the cache stores as
    [unknown].  [PNull] is the JSON value [null], which is also what
    [getCached] answers on a miss. *)
Inductive Payload :=
| PNull
| PQuote (q : FinnhubQuote)
| PProfile (p : FinnhubProfile)
| PSearch (r : FinnhubSearchResult)
| PCandles (k : FinnhubCandles)
| PNews (l : list FinnhubNewsItem)
| PPeers (l : list string)
| PMetrics (m : FinnhubMetrics).

(** [ToBoolean] on a payload: objects and arrays are truthy, [null] is not. *)
Definition truthy (p : Payload) : bool :=
  match p with
  | PNull => false
  | _ => true
  end.

(** ** The world around the plugin *)

Record Url := {
  href : string;
  searchParams : list (string * string)
}.

(** How one [fetch] ends. *)
Inductive Response :=
| NetworkFailure (message : string)          (* [fetch] rejects *)
| HttpError (status : N) (body : string)     (* [res.ok] is false *)
| BadBody (message : string)                 (* [res.json()] rejects *)
| Success (data : Payload).                  (* [res.ok], body parsed *)

(** The host and the network: the plugin setting store, the successive
    readings of [Date.now()], and the answer of the upstream to the [n]-th
    request of the process. *)
Record Env := {
  getSetting : string -> option string;
  clock : nat -> Z;
  respond : nat -> Url -> Response
}.

Record CacheEntry := {
  data : Payload;
  expiry : Z
}.

(** The mutable state: the cache, the number of clock readings taken so far
    and the requests sent so far, oldest first. *)
Record World := {
  cache : gmap string CacheEntry;
  ticks : nat;
  requests : list Url
}.

(** A computation either returns or throws an [Error] with a message. *)
Inductive Outcome (A : Type) :=
| Return (a : A)
| Throw (message : string).
Arguments Return {A} a.
Arguments Throw {A} message.

Definition M (A : Type) : Type := World -> Outcome A * World.

Definition ret {A} (a : A) : M A := fun w => (Return a, w).

Definition throw {A} (message : string) : M A := fun w => (Throw message, w).

Definition bind {A B} (m : M A) (f : A -> M B) : M B :=
  fun w =>
    match m w with
    | (Return a, w') => f a w'
    | (Throw e, w') => (Throw e, w')
    end.

(** [try { m } catch (e) { h(e.message) }] *)
Definition try_catch {A} (m : M A) (h : string -> M A) : M A :=
  fun w =>
    match m w with
    | (Return a, w') => (Return a, w')
    | (Throw e, w') => h e w'
    end.

Notation "'do' x <- m ; k" := (bind m (fun x => k))
  (at level 10, x name, m at level 100, k at level 200).
Notation "'do_' m ; k" := (bind m (fun _ => k))
  (at level 10, m at level 100, k at level 200).

(** ** The response cache *)

Definition BASE : string := "https://finnhub.io/api/v1".

Definition CACHE_TTL_MS : Z := 15000.

(** [Date.now()] *)
Definition Date_now (env : Env) : M Z :=
  fun w =>
    (Return (clock env (ticks w)),
     {| cache := cache w; ticks := S (ticks w); requests := requests w |}).

Definition cache_get (key : string) : M (option CacheEntry) :=
  fun w => (Return (cache w !! key), w).

Definition cache_delete (key : string) : M unit :=
  fun w =>
    (Return tt,
     {| cache := delete key (cache w); ticks := ticks w; requests := requests w |}).

Definition cache_set (key : string) (e : CacheEntry) : M unit :=
  fun w =>
    (Return tt,
     {| cache := <[key := e]> (cache w); ticks := ticks w; requests := requests w |}).

(** [cache.clear()], the whole of [deactivate]. *)
Definition deactivate : M unit :=
  fun w => (Return tt, {| cache := ∅; ticks := ticks w; requests := requests w |}).

Definition getCached (env : Env) (key : string) : M Payload :=
  do entry <- cache_get key;
  match entry with
  | None => ret PNull
  | Some entry =>
      do now <- Date_now env;
      if now >? expiry entry then
        do_ cache_delete key;
        ret PNull
      else ret (data entry)
  end.

Definition setCache (env : Env) (key : string) (d : Payload) : M unit :=
  do now <- Date_now env;
  cache_set key {| data := d; expiry := now + CACHE_TTL_MS |}.

(** [fetch(url)]: the request is sent and numbered; its answer is
    [respond env n url]. *)
Definition fetch (u : Url) : M nat :=
  fun w =>
    (Return (length (requests w)),
     {| cache := cache w; ticks := ticks w; requests := requests w ++ [u] |}).

Definition cacheKey (path : string) (params : Js.Record_string) : string :=
  path +:+ "?" +:+ Js.JSON_stringify params.

(** [new URL(`${BASE}${path}`)] once [token] and the parameters are set.
    The paths the plugin passes are literals made of letters, digits, [/] and
    [-].  [request_url] is the URL for a path that the parser leaves as it
    is and that carries no query and no fragment of its own (no [?] and no
    [#]): the query then starts empty. *)
Definition request_url (path apiKey : string) (params : Js.Record_string) : Url :=
  {| href := BASE +:+ path;
     searchParams :=
       fold_left (fun q kv => Js.searchParams_set (fst kv) (snd kv) q) params
         (Js.searchParams_set "token" apiKey []) |}.

(** [finnhub] suspends once, at [await fetch(...)].  [Pending] is the call at
    that point: already answered from the cache, or waiting for the answer
    to request [n]. *)
Inductive Pending :=
| Hit (cached : Payload)
| Waiting (key : string) (n : nat) (u : Url).

(** [finnhub] up to its first suspension. *)
Definition finnhub_begin (env : Env) (path apiKey : string)
    (params : Js.Record_string) : M Pending :=
  let key := cacheKey path params in
  do cached <- getCached env key;
  if truthy cached then ret (Hit cached)
  else
    let u := request_url path apiKey params in
    do n <- fetch u;
    ret (Waiting key n u).

(** [finnhub] from the arrival of the answer on. *)
Definition finnhub_settle (env : Env) (p : Pending) : M Payload :=
  match p with
  | Hit cached => ret cached
  | Waiting key n u =>
      match respond env n u with
      | NetworkFailure message => throw message
      | HttpError status text =>
          throw ("Finnhub " +:+ pretty status +:+ ": " +:+ text)
      | BadBody message => throw message
      | Success d =>
          do_ setCache env key d;
          ret d
      end
  end.

Definition finnhub (env : Env) (path apiKey : string)
    (params : Js.Record_string) : M Payload :=
  do p <- finnhub_begin env path apiKey params;
  finnhub_settle env p.

(** ** Built-ins of the language runtime

    Number and date formatting belong to the JavaScript engine and its
    locale data; the handlers are stated over any implementation of them. *)
Class Builtins := {
  (** [s.toUpperCase()] *)
  toUpperCase : string -> string;
  (** [x.toFixed(digits)] *)
  toFixed : nat -> float -> string;
  (** [n.toLocaleString("en-US", { minimumFractionDigits: 2,
      maximumFractionDigits: 2 })] *)
  toLocaleString_en_US_2 : float -> string;
  (** [n.toLocaleString()] *)
  toLocaleString : float -> string;
  (** [String(x)], also the interpolation of a number in a template *)
  String_of_number : float -> string;
  (** [Math.round(x)] *)
  Math_round : float -> float;
  (** [new Date(ms).toLocaleDateString("en-US", { month: "short",
      day: "numeric" })] *)
  toLocaleDateString_day : float -> string;
  (** the same with [hour: "numeric", minute: "2-digit"] *)
  toLocaleDateString_minute : float -> string;
  (** [new Date(ms).toISOString().split("T")[0]] *)
  toISOString_date : Z -> string;
  (** the message of the [TypeError] raised by reading or calling the
      property [prop] of [null] or [undefined] *)
  TypeError_message : string -> string
}.

(** ** Results of a tool *)

Record Content := {
  type_ : string;
  text : string
}.

Record ToolResult := {
  content : list Content;
  isError : bool
}.

Definition ok (t : string) : ToolResult :=
  {| content := [{| type_ := "text"; text := t |}]; isError := false |}.

Definition err (t : string) : ToolResult :=
  {| content := [{| type_ := "text"; text := t |}]; isError := true |}.

Definition nl : string := String (ascii_of_N 10) EmptyString.
Definition dq : string := String Js.dquote EmptyString.

(** The outcome of a computation that touches nothing. *)
Definition lift {A} (o : Outcome A) : M A := fun w => (o, w).

(** The [try { ... } catch (e) { return err(e.message) }] around every
    handler body. *)
Definition handler_body (m : M ToolResult) : M ToolResult :=
  try_catch m (fun message => ret (err message)).

Definition CONFIG_MESSAGE : string :=
  "Finnhub API key not configured. Set it in plugin settings.".

Definition getKey (env : Env) : M string :=
  match getSetting env "finnhubApiKey" with
  | Some key => if Js.truthy_string key then ret key else throw CONFIG_MESSAGE
  | None => throw CONFIG_MESSAGE
  end.

(** ** The tool handlers *)
Section Handlers.
  Context `{Builtins} (env : Env).

Definition formatCurrency (n : float) : string :=
  toLocaleString_en_US_2 n.

Definition formatLargeNumber (n : float) : string :=
  if PrimFloat.leb 1e12 n then toFixed 2 (n / 1e12) +:+ "T"
  else if PrimFloat.leb 1e9 n then toFixed 2 (n / 1e9) +:+ "B"
  else if PrimFloat.leb 1e6 n then toFixed 2 (n / 1e6) +:+ "M"
  else toLocaleString n.

  (** [finnhub<T>] casts the payload to [T] without a check, so a handler
      reads the properties of its type on whatever the body parsed to.
      Reading a property of [null] throws a [TypeError]; reading a property
      that an object or an array does not have gives [undefined]. *)

  (** What the properties of a quote are on a payload: the numbers of a
      quote; on a candle series, which has an [o] and may have a [c], arrays,
      the other properties being [undefined]; on any other object or array,
      [undefined] all of them. *)
Inductive QuoteCast :=
| Numbers (q : FinnhubQuote)
| Arrays (c : bool)
| Undefined.

Definition as_quote (prop : string) (p : Payload) : Outcome QuoteCast :=
  match p with
  | PNull => Throw (TypeError_message prop)
  | PQuote q => Return (Numbers q)
  | PCandles k => Return (Arrays (bool_decide (is_Some (k_c k))))
  | _ => Return Undefined
  end.

  (** *** Quote *)

Definition quote_direction (d : float) : string :=
  if PrimFloat.leb 0 d then "+" else "".

Definition render_quote (symbol : string) (p : Payload) : Outcome ToolResult :=
  match as_quote "c" p with
  | Throw e => Throw e
  | Return Undefined =>
      (* [!undefined && !undefined] *)
      Return (err ("No data found for symbol " +:+ dq +:+ symbol +:+ dq
                   +:+ ". Check the ticker and try again."))
  | Return (Arrays _) =>
      (* an array is truthy; [formatCurrency(quote.d)] reads [undefined] *)
      Throw (TypeError_message "toLocaleString")
  | Return (Numbers quote) =>
      if negb (Js.truthy_number (q_c quote)) && negb (Js.truthy_number (q_o quote))
      then
        Return (err ("No data found for symbol " +:+ dq +:+ symbol +:+ dq
                     +:+ ". Check the ticker and try again."))
      else
        let direction := quote_direction (q_d quote) in
        let lines :=
          [ symbol +:+ ": $" +:+ formatCurrency (q_c quote);
            "Change: " +:+ direction +:+ "$" +:+ formatCurrency (q_d quote)
              +:+ " (" +:+ direction +:+ toFixed 2 (q_dp quote) +:+ "%)";
            "Open: $" +:+ formatCurrency (q_o quote) +:+ "  |  Prev Close: $"
              +:+ formatCurrency (q_pc quote);
            "High: $" +:+ formatCurrency (q_h quote) +:+ "  |  Low: $"
              +:+ formatCurrency (q_l quote) ] in
        Return (ok (Js.join nl lines))
  end.

Definition stock_quote (args_symbol : string) : M ToolResult :=
  handler_body (
    let symbol := toUpperCase args_symbol in
    do key <- getKey env;
    do quote <- finnhub env "/quote" key [("symbol", symbol)];
    lift (render_quote symbol quote)).

  (** *** [Promise.all] over per-item asynchronous functions

      Each function runs up to its first suspension when it is called, in
      the order of the items.  The suspended ones resume when their fetch
      completes, in an order the network decides: those named in [order]
      first and in that order, then the remaining ones.  [Promise.all]
      resolves to the results in the order of the items. *)

Inductive Task :=
| Settled (line : string)
| Suspended (p : Pending).

  (** [try { m } catch { return line }] *)
Definition attempt {A} (m : M A) (fallback : A) : M A :=
  try_catch m (fun _ => ret fallback).

Fixpoint begin_all {X} (begin : X -> M Task) (xs : list X) : M (list Task) :=
  match xs with
  | [] => ret []
  | x :: xs' =>
      do t <- begin x;
      do ts <- begin_all begin xs';
      ret (t :: ts)
  end.

Definition resume_at {X} (resume : X -> Pending -> M string)
    (xs : list X) (i : nat) (ts : list Task) : M (list Task) :=
  match xs !! i, ts !! i with
  | Some x, Some (Suspended p) =>
      do line <- resume x p;
      ret (<[i := Settled line]> ts)
  | _, _ => ret ts
  end.

Fixpoint resume_in_order {X} (resume : X -> Pending -> M string)
    (xs : list X) (order : list nat) (ts : list Task) : M (list Task) :=
  match order with
  | [] => ret ts
  | i :: order' =>
      do ts' <- resume_at resume xs i ts;
      resume_in_order resume xs order' ts'
  end.

Fixpoint resume_rest {X} (resume : X -> Pending -> M string)
    (xs : list X) (ts : list Task) : M (list string) :=
  match xs, ts with
  | x :: xs', t :: ts' =>
      do line <- match t with
                 | Settled line => ret line
                 | Suspended p => resume x p
                 end;
      do lines <- resume_rest resume xs' ts';
      ret (line :: lines)
  | _, _ => ret []
  end.

Definition Promise_all {X} (begin : X -> M Task)
    (resume : X -> Pending -> M string) (order : list nat) (xs : list X)
    : M (list string) :=
  do ts <- begin_all begin xs;
  do ts' <- resume_in_order resume xs order ts;
  resume_rest resume xs ts'.

  (** *** Multi-quote *)

Definition quotes_line (symbol : string) (p : Payload) : Outcome string :=
  match as_quote "c" p with
  | Throw e => Throw e
  | Return Undefined => Return (symbol +:+ ": No data")
  | Return (Arrays c) =>
      (* [formatCurrency(q.c)] of an array returns; [q.dp] is [undefined] *)
      Throw (TypeError_message (if c then "toFixed" else "toLocaleString"))
  | Return (Numbers q) =>
      if negb (Js.truthy_number (q_c q)) && negb (Js.truthy_number (q_o q))
      then Return (symbol +:+ ": No data")
      else
        let dir := quote_direction (q_d q) in
        Return (symbol +:+ ": $" +:+ formatCurrency (q_c q) +:+ " (" +:+ dir
                +:+ toFixed 2 (q_dp q) +:+ "%)")
  end.

Definition quotes_begin (symbol : string) : M Task :=
  attempt
    (do key <- getKey env;
     do p <- finnhub_begin env "/quote" key [("symbol", symbol)];
     ret (Suspended p))
    (Settled (symbol +:+ ": Error fetching")).

Definition quotes_resume (symbol : string) (p : Pending) : M string :=
  attempt
    (do q <- finnhub_settle env p;
     lift (quotes_line symbol q))
    (symbol +:+ ": Error fetching").

Definition stock_quotes (order : list nat) (args_symbols : list string)
    : M ToolResult :=
  handler_body (
    let symbols := map toUpperCase args_symbols in
    do results <- Promise_all quotes_begin quotes_resume order symbols;
    ret (ok (Js.join nl results))).

  (** *** Symbol search *)

Definition STOCK_TYPES : list string :=
  ["Common Stock"; "ETP"; "ETF"; "REIT"; "ADR"].

Definition includes (l : list string) (x : string) : bool :=
  existsb (String.eqb x) l.

Definition render_search (query : string) (p : Payload) : Outcome ToolResult :=
  match p with
  | PNull => Throw (TypeError_message "result")
  | PSearch results =>
      match s_result results with
      | None | Some [] =>
          Return (err ("No results for " +:+ dq +:+ query +:+ dq +:+ "."))
      | Some result =>
          let filtered :=
            take 10 (List.filter
              (fun r => includes STOCK_TYPES (r_type r)
                        || negb (Js.truthy_string (r_type r))) result) in
          match filtered with
          | [] =>
              Return (ok ("Found results but none were common stocks/ETFs. Raw results:"
                +:+ nl +:+
                Js.join nl (map (fun r => r_symbol r +:+ " - " +:+ r_description r
                                          +:+ " (" +:+ r_type r +:+ ")")
                              (take 5 result))))
          | _ =>
              let lines :=
                map (fun r => r_symbol r +:+ " - " +:+ r_description r +:+
                      (if Js.truthy_string (r_type r)
                       then " (" +:+ r_type r +:+ ")" else ""))
                    filtered in
              Return (ok ("Search results for " +:+ dq +:+ query +:+ dq +:+ ":"
                          +:+ nl +:+ Js.join nl lines))
          end
      end
  | _ =>
      (* no [result] on another body *)
      Return (err ("No results for " +:+ dq +:+ query +:+ dq +:+ "."))
  end.

Definition stock_search (args_query : string) : M ToolResult :=
  handler_body (
    let query := args_query in
    do key <- getKey env;
    do results <- finnhub env "/search" key [("q", query)];
    lift (render_search query results)).

  (** *** Company profile *)

Definition render_profile (symbol : string) (p : Payload) : Outcome ToolResult :=
  match p with
  | PNull => Throw (TypeError_message "name")
  | PProfile profile =>
      if negb (Js.truthy_string (p_name profile)) then
        Return (err ("No company profile found for " +:+ dq +:+ symbol +:+ dq +:+ "."))
      else
        let lines :=
          [ p_name profile +:+ " (" +:+ p_ticker profile +:+ ")";
            "Industry: " +:+ Js.or_string (Some (p_finnhubIndustry profile)) "N/A";
            "Exchange: " +:+ Js.or_string (Some (p_exchange profile)) "N/A";
            "Market Cap: $" +:+
              formatLargeNumber (p_marketCapitalization profile * 1e6);
            "Shares Outstanding: " +:+
              formatLargeNumber (p_shareOutstanding profile * 1e6);
            "IPO Date: " +:+ Js.or_string (Some (p_ipo profile)) "N/A";
            "Country: " +:+ Js.or_string (Some (p_country profile)) "N/A";
            "Currency: " +:+ Js.or_string (Some (p_currency profile)) "N/A";
            "Website: " +:+ Js.or_string (Some (p_weburl profile)) "N/A" ] in
        Return (ok (Js.join nl lines))
  | _ =>
      (* no [name] on another body *)
      Return (err ("No company profile found for " +:+ dq +:+ symbol +:+ dq +:+ "."))
  end.

Definition stock_company_profile (args_symbol : string) : M ToolResult :=
  handler_body (
    let symbol := toUpperCase args_symbol in
    do key <- getKey env;
    do profile <- finnhub env "/stock/profile2" key [("symbol", symbol)];
    lift (render_profile symbol profile)).

  (** *** Historical candles *)

Record CandlesArgs := {
  ca_symbol : string;
  ca_resolution : option string;
  ca_days : option float
}.

Definition candles_days (args_days : option float) : float :=
  Js.Math_min [Js.Math_max [Js.or_number args_days 30; 1%float]; 365%float].

  (** [a[i]] passed to [formatCurrency] or [formatLargeNumber]: out of
      range it is [undefined], whose [toLocaleString] cannot be read. *)
Definition formatted (f : float -> string) (a : list float) (i : nat)
    : Outcome string :=
  match a !! i with
  | Some x => Return (f x)
  | None => Throw (TypeError_message "toLocaleString")
  end.

  (** The body of the loop over the last data points, at index [i]. *)
Definition candle_point (k : FinnhubCandles) (c : list float) (i : nat)
    : Outcome string :=
  let date :=
    toLocaleDateString_day
      (match k_t k !! i with Some t => (t * 1000)%float | None => PrimFloat.nan end) in
  match formatted formatCurrency (k_o k) i with
  | Throw e => Throw e
  | Return o =>
  match formatted formatCurrency (k_h k) i with
  | Throw e => Throw e
  | Return h =>
  match formatted formatCurrency (k_l k) i with
  | Throw e => Throw e
  | Return l =>
  match formatted formatCurrency c i with
  | Throw e => Throw e
  | Return cl =>
  match formatted formatLargeNumber (k_v k) i with
  | Throw e => Throw e
  | Return v =>
      Return ("  " +:+ date +:+ ": O $" +:+ o +:+ " H $" +:+ h +:+ " L $" +:+ l
              +:+ " C $" +:+ cl +:+ " V " +:+ v)
  end end end end end.

  (** [for (let i = start; i < count; i++) lines.push(...)], with
      [steps = count - start] iterations left. *)
Fixpoint candle_points (k : FinnhubCandles) (c : list float) (i steps : nat)
    (lines : list string) : Outcome (list string) :=
  match steps with
  | O => Return lines
  | S steps' =>
      match candle_point k c i with
      | Throw e => Throw e
      | Return line => candle_points k c (S i) steps' (lines ++ [line])
      end
  end.

Definition render_candles (symbol resolution : string) (days : float)
    (p : Payload) : Outcome ToolResult :=
  let no_data :=
    err ("No candle data for " +:+ dq +:+ symbol +:+ dq
         +:+ " with resolution " +:+ resolution +:+ " over "
         +:+ String_of_number days +:+ " days.") in
  match p with
  | PNull => Throw (TypeError_message "s")
  | PCandles candles =>
      if negb (String.eqb (k_s candles) "ok") then Return no_data
      else
        match k_c candles with
        | None | Some [] => Return no_data
        | Some ((earliest :: _) as c) =>
            let count := length c in
            let latest := List.last c earliest in
            let periodReturn := (((latest - earliest) / earliest) * 100)%float in
            let high := Js.Math_max (k_h candles) in
            let low := Js.Math_min (k_l candles) in
            let avgVolume :=
              (fold_left PrimFloat.add (k_v candles) 0
               / Js.number_of_Z (Z.of_nat count))%float in
            let lines :=
              [ symbol +:+ " — " +:+ pretty count +:+ " candles (" +:+ resolution
                  +:+ " resolution, " +:+ String_of_number days +:+ " days)";
                "";
                "Latest Close: $" +:+ formatCurrency latest;
                "Period Start: $" +:+ formatCurrency earliest;
                "Period Return: " +:+ (if PrimFloat.leb 0 periodReturn then "+" else "")
                  +:+ toFixed 2 periodReturn +:+ "%";
                "Period High: $" +:+ formatCurrency high;
                "Period Low: $" +:+ formatCurrency low;
                "Avg Volume: " +:+ formatLargeNumber (Math_round avgVolume) ] in
            let tail := Nat.min 5 count in
            match candle_points candles c (count - tail) tail
                    (lines ++ [""; "Last " +:+ pretty tail +:+ " data points:"]) with
            | Throw e => Throw e
            | Return lines => Return (ok (Js.join nl lines))
            end
        end
  | _ =>
      (* no [s] on another body, and [undefined !== "ok"] *)
      Return no_data
  end.

  (** [to], [from] and the parameters of the candle request, [now] being
      the reading of the clock.  [Math.floor(now / 1000)] is exact on time
      values. *)
Definition candles_query (symbol resolution : string) (days : float) (now : Z)
    : Js.Record_string :=
  let to := now / 1000 in
  let from := (Js.number_of_Z to - days * 86400)%float in
  [ ("symbol", symbol); ("resolution", resolution);
    ("from", String_of_number from);
    ("to", String_of_number (Js.number_of_Z to)) ].

Definition stock_candles (args : CandlesArgs) : M ToolResult :=
  handler_body (
    let symbol := toUpperCase (ca_symbol args) in
    let resolution := Js.or_string (ca_resolution args) "D" in
    let days := candles_days (ca_days args) in
    do now <- Date_now env;
    do key <- getKey env;
    do candles <- finnhub env "/stock/candle" key
                    (candles_query symbol resolution days now);
    lift (render_candles symbol resolution days candles)).

  (** *** Market news *)

Record NewsArgs := {
  na_symbol : option string;
  na_limit : option float
}.

Definition news_limit (args_limit : option float) : float :=
  Js.Math_min [Js.Math_max [Js.or_number args_limit 5; 1%float]; 20%float].

  (** [args.symbol ? args.symbol.toUpperCase() : null] *)
Definition news_symbol (args_symbol : option string) : option string :=
  match args_symbol with
  | Some s => if Js.truthy_string s then Some (toUpperCase s) else None
  | None => None
  end.

  (** [symbol ? a : b] for the [symbol] above. *)
Definition if_symbol {A} (symbol : option string) (a : string -> A) (b : A) : A :=
  match symbol with
  | Some s => if Js.truthy_string s then a s else b
  | None => b
  end.

  (** The lines one article adds. *)
Definition article_lines (article : FinnhubNewsItem) : list string :=
  let date := toLocaleDateString_minute (n_datetime article * 1000) in
  [ ""; "[" +:+ date +:+ "] " +:+ n_headline article ]
  ++ (if Js.truthy_string (n_summary article) then
        let summary :=
          if (200 <? String.length (n_summary article))%nat
          then String.substring 0 200 (n_summary article) +:+ "..."
          else n_summary article in
        [ "  " +:+ summary ]
      else [])
  ++ [ "  Source: " +:+ n_source article +:+ " | " +:+ n_url article ].

Definition render_news (symbol : option string) (limit : float) (p : Payload)
    : Outcome ToolResult :=
  let none :=
    ok (if_symbol symbol (fun s => "No recent news for " +:+ s +:+ ".")
          "No market news available.") in
  match p with
  | PNull | PNews [] | PPeers [] => Return none
  | PNews news =>
      let articles := Js.slice_to limit news in
      let lines :=
        fold_left (fun lines article => lines ++ article_lines article) articles
          [ if_symbol symbol (fun s => "News for " +:+ s +:+ ":") "Market News:" ] in
      Return (ok (Js.join nl lines))
  | PPeers strings =>
      (* the properties of an article are [undefined] on a string *)
      let articles := Js.slice_to limit strings in
      let lines :=
        fold_left
          (fun lines _ =>
             lines ++ [ ""; "[" +:+ toLocaleDateString_minute PrimFloat.nan
                              +:+ "] undefined";
                        "  Source: undefined | undefined" ])
          articles
          [ if_symbol symbol (fun s => "News for " +:+ s +:+ ":") "Market News:" ] in
      Return (ok (Js.join nl lines))
  | _ =>
      (* an object has no [length] and no [slice] *)
      Throw (TypeError_message "slice")
  end.

  (** [to], [fromDate] and the parameters of the company news request,
      [now] and [now'] being the two readings of the clock. *)
Definition company_news_query (symbol : string) (now now' : Z)
    : Js.Record_string :=
  let to := toISOString_date now in
  let fromDate := toISOString_date (now' - 7 * 86400000) in
  [("symbol", symbol); ("from", fromDate); ("to", to)].

Definition stock_news (args : NewsArgs) : M ToolResult :=
  handler_body (
    let symbol := news_symbol (na_symbol args) in
    let limit := news_limit (na_limit args) in
    do news <-
      if_symbol symbol
        (fun symbol =>
           do now <- Date_now env;
           do now' <- Date_now env;
           do key <- getKey env;
           finnhub env "/company-news" key (company_news_query symbol now now'))
        (do key <- getKey env;
         finnhub env "/news" key [("category", "general")]);
    lift (render_news symbol limit news)).

  (** *** Peers *)

Definition peers_line (peer : string) (p : Payload) : Outcome string :=
  match as_quote "c" p with
  | Throw e => Throw e
  | Return Undefined | Return (Arrays false) => Return (peer +:+ ": No data")
  | Return (Arrays true) => Throw (TypeError_message "toFixed")
  | Return (Numbers q) =>
      if negb (Js.truthy_number (q_c q)) then Return (peer +:+ ": No data")
      else
        let dir := quote_direction (q_d q) in
        Return (peer +:+ ": $" +:+ formatCurrency (q_c q) +:+ " (" +:+ dir
                +:+ toFixed 2 (q_dp q) +:+ "%)")
  end.

Definition peers_begin (peer : string) : M Task :=
  attempt
    (do key <- getKey env;
     do p <- finnhub_begin env "/quote" key [("symbol", peer)];
     ret (Suspended p))
    (Settled (peer +:+ ": Error")).

Definition peers_resume (peer : string) (p : Pending) : M string :=
  attempt
    (do q <- finnhub_settle env p;
     lift (peers_line peer q))
    (peer +:+ ": Error").

Definition topPeers (symbol : string) (peers : list string) : list string :=
  take 8 (List.filter (fun p => negb (String.eqb p symbol)) peers).

Definition stock_peers (order : list nat) (args_symbol : string) : M ToolResult :=
  handler_body (
    let symbol := toUpperCase args_symbol in
    do key <- getKey env;
    do peers <- finnhub env "/stock/peers" key
                  [("symbol", symbol); ("grouping", "industry")];
    match peers with
    | PNull | PPeers [] | PNews [] =>
        ret (err ("No peers found for " +:+ dq +:+ symbol +:+ dq +:+ "."))
    | PPeers peers =>
        do quotes <- Promise_all peers_begin peers_resume order
                       (topPeers symbol peers);
        ret (ok ("Peers of " +:+ symbol +:+ ":" +:+ nl +:+ Js.join nl quotes))
    | _ =>
        (* an object has no [length] and no [filter].  A list of articles
           is the one body left out: the handler would ask a quote for each
           of these objects, which are no symbols; it is given the same
           outcome. *)
        throw (TypeError_message "filter")
    end).

  (** *** Basic financials *)

  (** [m[k]], with [null] and [undefined] both [None] (the handler only
      tests [!= null]). *)
Fixpoint metric_get (m : list (string * option float)) (k : string)
    : option float :=
  match m with
  | [] => None
  | (k', v) :: m' => if String.eqb k' k then v else metric_get m' k
  end.

Definition fmt (v : option float) (prefix suffix : string) : string :=
  match v with
  | Some v => prefix +:+ formatCurrency v +:+ suffix
  | None => "N/A"
  end.

Definition fixed (digits : nat) (v : option float) (suffix : string) : string :=
  match v with
  | Some v => toFixed digits v +:+ suffix
  | None => "N/A"
  end.

Definition large (v : option float) : string :=
  match v with
  | Some v => "$" +:+ formatLargeNumber (v * 1e6)
  | None => "N/A"
  end.

Definition render_metrics (symbol : string) (p : Payload) : Outcome ToolResult :=
  match p with
  | PNull => Throw (TypeError_message "metric")
  | PMetrics d =>
      match m_metric d with
      | None | Some [] =>
          Return (err ("No metrics found for " +:+ dq +:+ symbol +:+ dq +:+ "."))
      | Some m =>
          let lines :=
            [ "Key Metrics for " +:+ symbol +:+ ":";
              "";
              "52-Week High: " +:+ fmt (metric_get m "52WeekHigh") "$" "";
              "52-Week Low: " +:+ fmt (metric_get m "52WeekLow") "$" "";
              "52-Week Return: " +:+ fmt (metric_get m "52WeekPriceReturnDaily") "" "%";
              "";
              "P/E (TTM): " +:+ fixed 2 (metric_get m "peTTM") "";
              "P/B (Quarterly): " +:+ fixed 2 (metric_get m "pbQuarterly") "";
              "EPS (TTM): " +:+ fmt (metric_get m "epsTTM") "$" "";
              "";
              "Beta: " +:+ fixed 3 (metric_get m "beta") "";
              "Dividend Yield: " +:+
                fixed 2 (metric_get m "dividendYieldIndicatedAnnual") "%";
              "Dividend Per Share: " +:+ fmt (metric_get m "dividendPerShareAnnual") "$" "";
              "";
              "Market Cap: " +:+ large (metric_get m "marketCapitalization");
              "Revenue (TTM): " +:+ large (metric_get m "revenueTTM");
              "Net Income (TTM): " +:+ large (metric_get m "netIncomeTTM");
              "ROE (TTM): " +:+ fixed 2 (metric_get m "roeTTM") "%" ] in
          Return (ok (Js.join nl lines))
      end
  | _ =>
      (* no [metric] on another body *)
      Return (err ("No metrics found for " +:+ dq +:+ symbol +:+ dq +:+ "."))
  end.

Definition stock_metrics (args_symbol : string) : M ToolResult :=
  handler_body (
    let symbol := toUpperCase args_symbol in
    do key <- getKey env;
    do d <- finnhub env "/stock/metric" key [("symbol", symbol); ("metric", "all")];
    lift (render_metrics symbol d)).

  (** *** The HTTP routes *)

  (** The JSON object a route answers with: [{ symbol, ...quote }], the
      search payload as it is, or [{ error }]. *)
Inductive RouteResult :=
| QuoteJson (symbol : string) (quote : Payload)
| SearchJson (results : Payload)
| ErrorJson (error : string).

  (** [GET /quote/:symbol] *)
Definition route_quote (params_symbol : string) : M RouteResult :=
  try_catch
    (do key <- getKey env;
     do quote <- finnhub env "/quote" key [("symbol", toUpperCase params_symbol)];
     ret (QuoteJson (toUpperCase params_symbol) quote))
    (fun message => ret (ErrorJson message)).

  (** [GET /search/:query] *)
Definition route_search (params_query : string) : M RouteResult :=
  try_catch
    (do key <- getKey env;
     do results <- finnhub env "/search" key [("q", params_query)];
     ret (SearchJson results))
    (fun message => ret (ErrorJson message)).

End Handlers.

(** * Vocabulary of the properties *)

(** ** Worlds *)

(** The world after one more clock reading. *)
Definition tick (w : World) : World :=
  {| cache := cache w; ticks := S (ticks w); requests := requests w |}.

(** The world after one more request. *)
Definition sent (u : Url) (w : World) : World :=
  {| cache := cache w; ticks := ticks w; requests := requests w ++ [u] |}.

(** The world with another cache. *)
Definition with_cache (c : gmap string CacheEntry) (w : World) : World :=
  {| cache := c; ticks := ticks w; requests := requests w |}.

(** An entry is live at a clock reading that does not exceed its expiry. *)
Definition live (now : Z) (e : CacheEntry) : bool := negb (now >? expiry e).

(** What a lookup answers and the world it leaves. *)
Definition lookup (env : Env) (key : string) (w : World) : Payload * World :=
  match cache w !! key with
  | None => (PNull, w)
  | Some e =>
      if live (clock env (ticks w)) e then (data e, tick w)
      else (PNull, with_cache (delete key (cache w)) (tick w))
  end.

(** Whether an answer of the upstream is a failure. *)
Definition failed (r : Response) : bool :=
  match r with
  | Success _ => false
  | _ => true
  end.

(** ** Traces *)

(** What the process does to the store: calls of [finnhub], bare lookups,
    and [deactivate]. *)
Inductive Op :=
| Call (path apiKey : string) (params : Js.Record_string)
| Lookup (key : string)
| Deactivate.

Definition step (env : Env) (op : Op) (w : World) : World :=
  match op with
  | Call path apiKey params => snd (finnhub env path apiKey params w)
  | Lookup key => snd (getCached env key w)
  | Deactivate => snd (deactivate w)
  end.

Definition run (env : Env) (ops : list Op) (w : World) : World :=
  fold_left (fun w op => step env op w) ops w.

(** The entry [e] was stored by a successful fetch sent at or after the
    [n0]-th request of the process. *)
Definition fetched_since (env : Env) (n0 : nat) (w : World) (e : CacheEntry) : Prop :=
  exists n u, (n0 <= n)%nat /\ requests w !! n = Some u
              /\ respond env n u = Success (data e).

(** Every entry of the key is one fetched since [n0]: an invariant of the
    steps, from a world that has sent at least [n0] requests. *)
Definition fresh_only (env : Env) (key : string) (n0 : nat) (w : World) : Prop :=
  (n0 <= length (requests w))%nat
  /\ forall e, cache w !! key = Some e -> fetched_since env n0 w e.

(** ** Numbers *)

(** A number other than [NaN]; every number a JSON body parses to is one. *)
Definition nan_free (x : float) : Prop := PrimFloat.is_nan x = false.

(** [x] clamped into the range from [lo] to [hi], as the specification
    words it. *)
Definition clamp (lo hi x : float) : float :=
  if PrimFloat.ltb x lo then lo
  else if PrimFloat.ltb hi x then hi
  else x.

(** ** Reading a serialised object back *)
Module Unquote.
  Import Js.

Definition unhex (c : ascii) : option N :=
  let n := N_of_ascii c in
  if ((48 <=? n) && (n <=? 57))%N then Some (n - 48)%N
  else if ((97 <=? n) && (n <=? 102))%N then Some (n - 87)%N
  else None.

  (** One escaped code unit read back from the front of a string; [None] in
      front of the closing quote. *)
Definition unescape_char (s : string) : option (ascii * string) :=
  match s with
  | EmptyString => None
  | String c r =>
      if (N_of_ascii c =? 34)%N then None
      else if (N_of_ascii c =? 92)%N then
        match r with
        | String e r' =>
            let n := N_of_ascii e in
            if (n =? 34)%N then Some (dquote, r')
            else if (n =? 92)%N then Some (backslash, r')
            else if (n =? 98)%N then Some (ascii_of_N 8, r')
            else if (n =? 116)%N then Some (ascii_of_N 9, r')
            else if (n =? 110)%N then Some (ascii_of_N 10, r')
            else if (n =? 102)%N then Some (ascii_of_N 12, r')
            else if (n =? 114)%N then Some (ascii_of_N 13, r')
            else if (n =? 117)%N then
              match r' with
              | String _ (String _ (String h (String l r''))) =>
                  match unhex h, unhex l with
                  | Some h, Some l => Some (ascii_of_N (16 * h + l), r'')
                  | _, _ => None
                  end
              | _ => None
              end
            else None
        | EmptyString => None
        end
      else Some (c, r)
  end.

  (** What follows a member in the serialisation: the closing brace, or a
      comma and the remaining members. *)
Definition members_after (o : Record_string) : string :=
  match o with
  | [] => "}"
  | _ :: _ => "," +:+ join "," (map member o) +:+ "}"
  end.

End Unquote.

(** ** Batches *)

(** How the fetch behind a suspended call ends; the clock and the store have
    no say in it. *)
Definition fetch_outcome (env : Env) (p : Pending) : Outcome Payload :=
  match p with
  | Hit cached => Return cached
  | Waiting _ n u =>
      match respond env n u with
      | NetworkFailure message => Throw message
      | HttpError status text =>
          Throw ("Finnhub " +:+ pretty status +:+ ": " +:+ text)
      | BadBody message => Throw message
      | Success d => Return d
      end
  end.

(** The line of one symbol of [stock_quotes], from the outcome of its
    fetch. *)
Definition quotes_result `{Builtins} (symbol : string) (o : Outcome Payload) : string :=
  match o with
  | Return d =>
      match quotes_line symbol d with
      | Return line => line
      | Throw _ => symbol +:+ ": Error fetching"
      end
  | Throw _ => symbol +:+ ": Error fetching"
  end.

(** The line of one peer of [stock_peers], from the outcome of its fetch. *)
Definition peers_result `{Builtins} (peer : string) (o : Outcome Payload) : string :=
  match o with
  | Return d =>
      match peers_line peer d with
      | Return line => line
      | Throw _ => peer +:+ ": Error"
      end
  | Throw _ => peer +:+ ": Error"
  end.

(** The line a task ends with: the one it settled with at once, or the one
    its resumption gives for its suspended call. *)
Definition final_line {X} (line_of : X -> Pending -> string) (x : X) (t : Task)
    : string :=
  match t with
  | Settled line => line
  | Suspended p => line_of x p
  end.

(** The world a call of [finnhub] leaves when it suspends: the one its
    lookup left, with its request added if the lookup answered nothing
    truthy. *)
Definition begun (env : Env) (path apiKey : string) (params : Js.Record_string)
    (w : World) : World :=
  let w0 := snd (lookup env (cacheKey path params) w) in
  if truthy (fst (lookup env (cacheKey path params) w)) then w0
  else sent (request_url path apiKey params) w0.

(** How a call begun in the world [w] ends: with the payload its lookup
    answered, or else with the answer of the upstream to its own request,
    which is the next one of [w]. *)
Definition call_outcome (env : Env) (path apiKey : string)
    (params : Js.Record_string) (w : World) : Outcome Payload :=
  let cached := fst (lookup env (cacheKey path params) w) in
  if truthy cached then Return cached
  else
    match respond env (length (requests w)) (request_url path apiKey params) with
    | NetworkFailure message => Throw message
    | HttpError status text =>
        Throw ("Finnhub " +:+ pretty status +:+ ": " +:+ text)
    | BadBody message => Throw message
    | Success d => Return d
    end.

(** The world once the quote calls for the symbols [xs] have all begun, in
    the order of [xs]. *)
Definition quotes_begun (env : Env) (apiKey : string) (xs : list string)
    (w : World) : World :=
  fold_left (fun w x => begun env "/quote" apiKey [("symbol", x)] w) xs w.

(** ** Results *)

(** What a handler returns for the outcome of its rendering. *)
Definition settle (o : Outcome ToolResult) : ToolResult :=
  match o with
  | Return r => r
  | Throw message => err message
  end.

(** The message of the specification for a symbol without data. *)
Definition no_data_message (symbol : string) : string :=
  "No data found for symbol " +:+ dq +:+ symbol +:+ dq +:+ ".".

(** ** Candle reports *)

(** One data point of a series. *)
Record Candle := {
  at_t : float;
  at_o : float;
  at_h : float;
  at_l : float;
  at_c : float;
  at_v : float
}.

(** The [i]-th data point of the payload [k] whose closes are [c]. *)
Definition candle_at (k : FinnhubCandles) (c : list float) (i : nat) : Candle :=
  {| at_t := nth i (k_t k) 0%float; at_o := nth i (k_o k) 0%float;
     at_h := nth i (k_h k) 0%float; at_l := nth i (k_l k) 0%float;
     at_c := nth i c 0%float; at_v := nth i (k_v k) 0%float |}.

(** The series, oldest first. *)
Definition series (k : FinnhubCandles) (c : list float) : list Candle :=
  map (candle_at k c) (seq 0 (length c)).

(** The line of the report for one data point. *)
Definition candle_line `{Builtins} (x : Candle) : string :=
  "  " +:+ toLocaleDateString_day (at_t x * 1000) +:+ ": O $"
  +:+ formatCurrency (at_o x) +:+ " H $" +:+ formatCurrency (at_h x)
  +:+ " L $" +:+ formatCurrency (at_l x) +:+ " C $" +:+ formatCurrency (at_c x)
  +:+ " V " +:+ formatLargeNumber (at_v x).

(** The head of the report, for given statistics. *)
Definition candles_report `{Builtins} (symbol resolution : string) (days : float)
    (count : nat) (latest earliest periodReturn high low avgVolume : float)
    : list string :=
  [ symbol +:+ " — " +:+ pretty count +:+ " candles (" +:+ resolution
      +:+ " resolution, " +:+ String_of_number days +:+ " days)";
    "";
    "Latest Close: $" +:+ formatCurrency latest;
    "Period Start: $" +:+ formatCurrency earliest;
    "Period Return: " +:+ (if PrimFloat.leb 0 periodReturn then "+" else "")
      +:+ toFixed 2 periodReturn +:+ "%";
    "Period High: $" +:+ formatCurrency high;
    "Period Low: $" +:+ formatCurrency low;
    "Avg Volume: " +:+ formatLargeNumber (Math_round avgVolume) ].

(** ** Examples *)

(** A runtime: ASCII letters are upper-cased; numbers and dates print as a
    mark. *)
Definition upper_char (c : ascii) : ascii :=
  let n := N_of_ascii c in
  if ((97 <=? n) && (n <=? 122))%N then ascii_of_N (n - 32) else c.

Fixpoint upper (s : string) : string :=
  match s with
  | EmptyString => EmptyString
  | String c s' => String (upper_char c) (upper s')
  end.

Definition plain : Builtins :=
  {| toUpperCase := upper;
     toFixed := fun _ _ => "#";
     toLocaleString_en_US_2 := fun _ => "#";
     toLocaleString := fun _ => "#";
     String_of_number := fun _ => "#";
     Math_round := fun x => x;
     toLocaleDateString_day := fun _ => "@";
     toLocaleDateString_minute := fun _ => "@";
     toISOString_date := fun _ => "@";
     TypeError_message := fun prop => "Cannot read properties of null" |}.

(** A world with an empty cache. *)
Definition fresh : World := {| cache := ∅; ticks := 0; requests := [] |}.

(** A host with a configured key, a clock that stands at 0 and an upstream
    that always answers the same. *)
Definition still (r : Response) : Env :=
  {| getSetting := fun _ => Some "token"; clock := fun _ => 0; respond := fun _ _ => r |}.

(** The same with an upstream that answers the [n]-th request with the
    [n]-th response of a script, and fails once the script is over. *)
Definition scripted (rs : list Response) : Env :=
  {| getSetting := fun _ => Some "token";
     clock := fun _ => 0;
     respond := fun n _ => nth n rs (NetworkFailure "fetch failed") |}.

Definition a_quote : FinnhubQuote :=
  {| q_c := 150; q_d := 2.5; q_dp := 1.5; q_h := 151; q_l := 148; q_o := 149;
     q_pc := 147.5; q_t := 1700000000 |}.

(** The quote of a symbol the upstream does not know: every field is zero. *)
Definition zero_quote : FinnhubQuote :=
  {| q_c := 0; q_d := 0; q_dp := 0; q_h := 0; q_l := 0; q_o := 0; q_pc := 0;
     q_t := 0 |}.

(** A host without the setting. *)
Definition unconfigured : Env :=
  {| getSetting := fun _ => None; clock := fun _ => 0;
     respond := fun _ _ => Success (PQuote a_quote) |}.

(** A world whose cache holds one entry, expired at the next reading of a
    clock that stands at 0. *)
Definition stale : World :=
  {| cache := {[ cacheKey "/quote" [("symbol", "AAPL")]
                 := {| data := PPeers []; expiry := -1 |} ]};
     ticks := 0; requests := [] |}.

(** A series of seven daily candles. *)
Definition week : FinnhubCandles :=
  {| k_c := Some [100; 101; 99; 102; 104; 103; 106]%float;
     k_h := [101; 102; 101; 103; 105; 104; 107]%float;
     k_l := [99; 100; 98; 101; 102; 102; 104]%float;
     k_o := [100; 100; 101; 99; 102; 104; 103]%float;
     k_s := "ok";
     k_t := [1700000000; 1700086400; 1700172800; 1700259200; 1700345600;
             1700432000; 1700518400]%float;
     k_v := [1000; 1200; 900; 1500; 1100; 1300; 1400]%float |}.

(** ** Effects *)

(** [m] only appends to the requests sent, and at most [n] of them. *)
Definition sends {A} (n : nat) (m : M A) : Prop :=
  forall w,
    exists l, requests (snd (m w)) = requests w ++ l /\ (length l <= n)%nat.

(** [m] returns, whatever the world: nothing it throws escapes. *)
Definition returns {A} (m : M A) : Prop :=
  forall w, exists a w', m w = (Return a, w').

(** ** Search results *)

(** An item the search tool lists: of one of the stock types, or of no
    type. *)
Definition listable (r : SearchItem) : bool :=
  includes STOCK_TYPES (r_type r) || negb (Js.truthy_string (r_type r)).

(** The line of the search tool for an item. *)
Definition search_line (r : SearchItem) : string :=
  r_symbol r +:+ " - " +:+ r_description r +:+
  (if Js.truthy_string (r_type r) then " (" +:+ r_type r +:+ ")" else "").

(** ** Paths *)

(** The character [c] occurs in [s]. *)
Fixpoint has_char (c : ascii) (s : string) : bool :=
  match s with
  | EmptyString => false
  | String c' s' => Ascii.eqb c' c || has_char c s'
  end.

(** * Properties *)

(** ** Cache keys *)
Module KeyFacts.
  Import Js Unquote.
  #[local] Arguments String.append !_ _ / : simpl nomatch.

Lemma app_assoc (a b c : string) : (a +:+ b) +:+ c = a +:+ (b +:+ c).
Proof. induction a as [|x a IH]; simpl; [reflexivity | now f_equal]. Qed.

Lemma unescape_escape_char (c : ascii) (x : string) :
  unescape_char (escape_char c +:+ x) = Some (c, x).
Proof.
  destruct c as [[] [] [] [] [] [] [] []]; reflexivity.
Qed.

Lemma unescape_dquote (x : string) : unescape_char (String dquote x) = None.
Proof. reflexivity. Qed.

Lemma escape_inj (s1 s2 r1 r2 : string) :
  escape s1 +:+ String dquote r1 = escape s2 +:+ String dquote r2 ->
  s1 = s2 /\ r1 = r2.
Proof.
  revert s2; induction s1 as [|c1 s1 IH]; intros [|c2 s2] E;
    cbn [escape] in E; simpl in E.
  - injection E as ->. auto.
  - apply (f_equal unescape_char) in E.
    rewrite app_assoc, unescape_escape_char, unescape_dquote in E. discriminate.
  - apply (f_equal unescape_char) in E.
    rewrite app_assoc, unescape_escape_char, unescape_dquote in E. discriminate.
  - apply (f_equal unescape_char) in E.
    rewrite !app_assoc, !unescape_escape_char in E.
    injection E as -> E. destruct (IH _ E) as [-> ->]. auto.
Qed.

Lemma quote_inj (s1 s2 r1 r2 : string) :
  quote s1 +:+ r1 = quote s2 +:+ r2 -> s1 = s2 /\ r1 = r2.
Proof.
  unfold quote; simpl. intros E. injection E as E.
  rewrite !app_assoc in E. simpl in E. now apply escape_inj.
Qed.

Lemma member_inj (p1 p2 : string * string) (r1 r2 : string) :
  member p1 +:+ r1 = member p2 +:+ r2 -> p1 = p2 /\ r1 = r2.
Proof.
  destruct p1 as [k1 v1], p2 as [k2 v2]. unfold member; simpl fst; simpl snd.
  rewrite !app_assoc. intros E.
  apply quote_inj in E as [-> E]. apply String.app_inj in E.
  apply quote_inj in E as [-> E]. auto.
Qed.

Lemma join_members (p : string * string) (o : Record_string) :
  join "," (map member (p :: o)) +:+ "}" = member p +:+ members_after o.
Proof.
  destruct o as [|p' o]; [reflexivity |].
  change (join "," (map member (p :: p' :: o)))
    with (member p +:+ "," +:+ join "," (map member (p' :: o))).
  now rewrite !app_assoc.
Qed.

Lemma members_after_inj (o1 o2 : Record_string) :
  members_after o1 = members_after o2 -> o1 = o2.
Proof.
  revert o2; induction o1 as [|p1 o1 IH]; intros [|p2 o2] E;
    try reflexivity; try discriminate.
  unfold members_after in E. apply String.app_inj in E.
  rewrite !join_members in E.
  apply member_inj in E as [-> E]. f_equal. now apply IH.
Qed.

Lemma JSON_stringify_inj (o1 o2 : Record_string) :
  JSON_stringify o1 = JSON_stringify o2 -> o1 = o2.
Proof.
  unfold JSON_stringify. intros E. apply String.app_inj in E.
  destruct o1 as [|p1 o1], o2 as [|p2 o2]; try reflexivity.
  - rewrite join_members in E. destruct p2; discriminate.
  - rewrite join_members in E. destruct p1; discriminate.
  - rewrite !join_members in E.
    apply member_inj in E as [-> E]. f_equal. now apply members_after_inj.
Qed.

Lemma cacheKey_inj (path : string) (o1 o2 : Record_string) :
  cacheKey path o1 = cacheKey path o2 -> o1 = o2.
Proof.
  unfold cacheKey. intros E.
  do 2 apply String.app_inj in E. now apply JSON_stringify_inj.
Qed.

End KeyFacts.

(** ** The cache layer *)

Module CacheFacts.

Lemma getCached_eq (env : Env) (key : string) (w : World) :
  getCached env key w = (Return (fst (lookup env key w)), snd (lookup env key w)).
Proof.
  unfold getCached, lookup, bind, cache_get, Date_now, cache_delete, ret, live.
  destruct (cache w !! key) as [e|]; [|reflexivity].
  destruct (clock env (ticks w) >? expiry e); reflexivity.
Qed.

Lemma setCache_eq (env : Env) (key : string) (d : Payload) (w : World) :
  setCache env key d w =
    (Return tt,
     with_cache (<[key := {| data := d; expiry := clock env (ticks w) + CACHE_TTL_MS |}]>
                   (cache w)) (tick w)).
Proof. reflexivity. Qed.

Lemma finnhub_begin_eq (env : Env) (path apiKey : string)
    (params : Js.Record_string) (w : World) :
  finnhub_begin env path apiKey params w =
    let key := cacheKey path params in
    let (cached, w0) := lookup env key w in
    if truthy cached then (Return (Hit cached), w0)
    else
      let u := request_url path apiKey params in
      (Return (Waiting key (length (requests w0)) u), sent u w0).
Proof.
  unfold finnhub_begin, bind. rewrite getCached_eq.
  destruct (lookup env (cacheKey path params) w) as [cached w0]; simpl.
  destruct (truthy cached); reflexivity.
Qed.

  (** A live entry with a truthy payload answers the call: one clock
      reading, no request, the store untouched. *)
Lemma finnhub_hit (env : Env) (path apiKey : string) (params : Js.Record_string)
    (w : World) (e : CacheEntry) :
  cache w !! cacheKey path params = Some e ->
  live (clock env (ticks w)) e = true ->
  truthy (data e) = true ->
  finnhub env path apiKey params w = (Return (data e), tick w).
Proof.
  intros He Hl Ht. unfold finnhub, bind.
  rewrite finnhub_begin_eq. unfold lookup. rewrite He, Hl. simpl. rewrite Ht.
  reflexivity.
Qed.

  (** A call, by cases on its lookup and on the answer of the upstream. *)
Lemma finnhub_eq (env : Env) (path apiKey : string)
    (params : Js.Record_string) (w : World) :
  finnhub env path apiKey params w =
    let key := cacheKey path params in
    let (cached, w0) := lookup env key w in
    if truthy cached then (Return cached, w0)
    else
      let u := request_url path apiKey params in
      match respond env (length (requests w0)) u with
      | NetworkFailure message => (Throw message, sent u w0)
      | HttpError status text =>
          (Throw ("Finnhub " +:+ pretty status +:+ ": " +:+ text), sent u w0)
      | BadBody message => (Throw message, sent u w0)
      | Success d =>
          (Return d,
           with_cache
             (<[key := {| data := d; expiry := clock env (ticks w0) + CACHE_TTL_MS |}]>
                (cache w0))
             (tick (sent u w0)))
      end.
Proof.
  unfold finnhub, bind. rewrite finnhub_begin_eq. cbv zeta.
  destruct (lookup env (cacheKey path params) w) as [cached w0].
  destruct (truthy cached); [reflexivity|]. simpl.
  destruct (respond env _ _); reflexivity.
Qed.

  (** A lookup answers something truthy only from a live entry. *)
Lemma lookup_truthy (env : Env) (key : string) (w : World) :
  truthy (fst (lookup env key w)) = true ->
  exists e, cache w !! key = Some e /\ live (clock env (ticks w)) e = true
            /\ lookup env key w = (data e, tick w).
Proof.
  unfold lookup. destruct (cache w !! key) as [e|]; [|discriminate].
  destruct (live (clock env (ticks w)) e) eqn:Hl; [|discriminate].
  intros _. exists e. auto.
Qed.

  (** The lookup never adds or changes an entry. *)
Lemma lookup_cache (env : Env) (key : string) (w : World) (k : string)
    (e : CacheEntry) :
  cache (snd (lookup env key w)) !! k = Some e -> cache w !! k = Some e.
Proof.
  unfold lookup. destruct (cache w !! key) as [e0|] eqn:He0; [|auto].
  destruct (live _ e0); simpl; [auto|].
  intros Hk. apply lookup_delete_Some in Hk. tauto.
Qed.

  (** After a lookup that answered something falsy, the next lookup of the
      key answers something falsy too, whatever the clock says. *)
Lemma lookup_again (env : Env) (key : string) (w : World) :
  truthy (fst (lookup env key w)) = false ->
  forall w', cache w' = cache (snd (lookup env key w)) ->
  truthy (fst (lookup env key w')) = false.
Proof.
  unfold lookup at 1 2. intros Hf w' Hc. unfold lookup. rewrite Hc. clear Hc.
  destruct (cache w !! key) as [e|] eqn:He; simpl in *.
  - destruct (live (clock env (ticks w)) e) eqn:Hl; simpl in *.
    + rewrite He. destruct (live (clock env (ticks w')) e); simpl; auto.
    + now rewrite lookup_delete_eq.
  - now rewrite He.
Qed.

End CacheFacts.

(** *** Same key, same entry *)

(** C1, as amended.  For every endpoint path the cache key determines the
    parameter mapping as the sequence of its name/value pairs in enumeration
    order: two calls derive the same key exactly when they supply the same
    pairs in the same order, so a lookup under the key of [o2] reads the
    entry stored under the key of [o1] exactly in that case. *)
Theorem cacheKey_same_order (path : string) (o1 o2 : Js.Record_string)
    (e : CacheEntry) (c : gmap string CacheEntry) :
  (cacheKey path o1 = cacheKey path o2 <-> o1 = o2)
  /\ <[cacheKey path o1 := e]> c !! cacheKey path o2
     = if decide (o1 = o2) then Some e else c !! cacheKey path o2.
Proof.
  assert (Hk : cacheKey path o1 = cacheKey path o2 <-> o1 = o2).
  { split; [apply KeyFacts.cacheKey_inj | now intros ->]. }
  split; [exact Hk|].
  destruct (decide (o1 = o2)) as [->|Hne].
  - apply lookup_insert_eq.
  - apply lookup_insert_ne. intros Heq. apply Hne, Hk, Heq.
Qed.

(** The parameters [{a:1,b:2}] and [{b:2,a:1}] derive different keys, and
    the second call goes upstream although the first one has just stored
    its payload. *)
Lemma cacheKey_order_dependent :
  String.eqb (cacheKey "/quote" [("a", "1"); ("b", "2")])
             (cacheKey "/quote" [("b", "2"); ("a", "1")]) = false
  /\ requests
       (snd (finnhub (still (Success (PPeers []))) "/quote" "token"
               [("b", "2"); ("a", "1")]
               (snd (finnhub (still (Success (PPeers []))) "/quote" "token"
                       [("a", "1"); ("b", "2")] fresh))))
     = [ request_url "/quote" "token" [("a", "1"); ("b", "2")];
         request_url "/quote" "token" [("b", "2"); ("a", "1")] ].
Proof. split; vm_compute; reflexivity. Qed.

(** *** Hits within the time to live *)

(** C2, as amended.  After a call that returned a truthy payload [d] the
    store holds an entry with [d] under the key of the call (expiring
    [CACHE_TTL_MS] after the clock reading of the store when the call went
    upstream), and a second call with the same path and parameters whose
    clock reading does not exceed that expiry returns [d] itself, sends no
    request and leaves the store as it is. *)
Theorem hit_within_ttl (env : Env) (path apiKey : string)
    (params : Js.Record_string) (w w1 : World) (d : Payload) :
  finnhub env path apiKey params w = (Return d, w1) ->
  truthy d = true ->
  exists e,
    cache w1 !! cacheKey path params = Some e /\ data e = d
    /\ (length (requests w1) = S (length (requests w)) ->
        expiry e = clock env (pred (ticks w1)) + CACHE_TTL_MS)
    /\ forall apiKey',
         live (clock env (ticks w1)) e = true ->
         finnhub env path apiKey' params w1 = (Return d, tick w1).
Proof.
  intros Hcall Hd. rewrite CacheFacts.finnhub_eq in Hcall. cbv zeta in Hcall.
  destruct (lookup env (cacheKey path params) w) as [cached w0] eqn:Hlk.
  destruct (truthy cached) eqn:Ht.
  - injection Hcall as -> ->.
    destruct (CacheFacts.lookup_truthy env (cacheKey path params) w)
      as (e & He & Hl & Heq); [now rewrite Hlk|].
    rewrite Hlk in Heq. injection Heq as -> ->.
    exists e. repeat split; [exact He| |].
    + simpl. lia.
    + intros apiKey' Hl'. now apply CacheFacts.finnhub_hit.
  - destruct (respond env _ _) as [| | |d']; try discriminate.
    injection Hcall as -> <-.
    eexists. split; [apply lookup_insert_eq|]. repeat split.
    intros apiKey' Hl'.
    apply (CacheFacts.finnhub_hit env path apiKey' params _
             {| data := d; expiry := clock env (ticks w0) + CACHE_TTL_MS |});
      [apply lookup_insert_eq | exact Hl' | exact Hd].
Qed.

Lemma hit_within_ttl_witness :
  let env := still (Success (PPeers ["MSFT"])) in
  let params := [("symbol", "AAPL"); ("grouping", "industry")] in
  let w1 := snd (finnhub env "/stock/peers" "token" params fresh) in
  finnhub env "/stock/peers" "token" params fresh = (Return (PPeers ["MSFT"]), w1)
  /\ exists e,
       cache w1 !! cacheKey "/stock/peers" params = Some e
       /\ data e = PPeers ["MSFT"]
       /\ (length (requests w1) = S (length (requests fresh)) ->
           expiry e = clock env (pred (ticks w1)) + CACHE_TTL_MS)
       /\ forall apiKey',
            live (clock env (ticks w1)) e = true ->
            finnhub env "/stock/peers" apiKey' params w1
            = (Return (PPeers ["MSFT"]), tick w1).
Proof.
  cbv zeta. split; [reflexivity|].
  apply (hit_within_ttl (still (Success (PPeers ["MSFT"]))) "/stock/peers" "token"
           [("symbol", "AAPL"); ("grouping", "industry")] fresh);
    reflexivity.
Defined.

(** A body that parses to [null] is stored, yet the next call within the
    time to live goes upstream again: [getCached] answers the stored [null],
    which [finnhub] takes for a miss. *)
Lemma null_payload_refetched :
  fst (finnhub (still (Success PNull)) "/news" "token" [("category", "general")] fresh)
  = Return PNull
  /\ (data <$>
        cache (snd (finnhub (still (Success PNull)) "/news" "token"
                      [("category", "general")] fresh))
        !! cacheKey "/news" [("category", "general")]) = Some PNull
  /\ requests
       (snd (finnhub (still (Success PNull)) "/news" "token" [("category", "general")]
          (snd (finnhub (still (Success PNull)) "/news" "token"
                  [("category", "general")] fresh))))
     = [ request_url "/news" "token" [("category", "general")];
         request_url "/news" "token" [("category", "general")] ].
Proof. repeat split; vm_compute; reflexivity. Qed.

(** *** Failures are not cached *)

(** C3, as amended.  When a call of [finnhub] goes upstream, its key having
    no live entry with a truthy payload, and the answer is a failure (a
    transport error, a non-success status or a body that does not parse),
    the call throws and nothing is inserted: the request is the one thing
    added to the world; every other key holds what it held; the key of the
    call holds what it held, unless that was an expired entry, which the
    lookup has removed; so no key holds an entry it did not hold before,
    and an immediate retry sends its request again. *)
Theorem failure_not_cached (env : Env) (path apiKey : string)
    (params : Js.Record_string) (w : World) :
  (forall e, cache w !! cacheKey path params = Some e ->
             live (clock env (ticks w)) e = true -> truthy (data e) = false) ->
  failed (respond env (length (requests w)) (request_url path apiKey params)) = true ->
  let key := cacheKey path params in
  let w1 := snd (finnhub env path apiKey params w) in
  (exists message, fst (finnhub env path apiKey params w) = Throw message)
  /\ requests w1 = requests w ++ [request_url path apiKey params]
  /\ (forall k, k <> key -> cache w1 !! k = cache w !! k)
  /\ cache w1 !! key
     = match cache w !! key with
       | Some e => if live (clock env (ticks w)) e then Some e else None
       | None => None
       end
  /\ (forall k e, cache w1 !! k = Some e -> cache w !! k = Some e)
  /\ forall apiKey',
       requests (snd (finnhub env path apiKey' params w1))
       = requests w1 ++ [request_url path apiKey' params].
Proof.
  intros Hmiss Hfail. cbv zeta.
  assert (Hlk : truthy (fst (lookup env (cacheKey path params) w)) = false).
  { unfold lookup. destruct (cache w !! _) as [e|] eqn:He; [|reflexivity].
    destruct (live _ e) eqn:Hl; simpl; [eauto | reflexivity]. }
  assert (Hreq : forall w', requests (snd (lookup env (cacheKey path params) w'))
                            = requests w').
  { intros w'. unfold lookup. destruct (cache w' !! _) as [e|]; [|reflexivity].
    destruct (live _ e); reflexivity. }
  assert (Hown : cache (snd (lookup env (cacheKey path params) w))
                   !! cacheKey path params
                 = match cache w !! cacheKey path params with
                   | Some e => if live (clock env (ticks w)) e then Some e else None
                   | None => None
                   end).
  { unfold lookup. destruct (cache w !! _) as [e|] eqn:He; [|exact He].
    destruct (live _ e); simpl; [exact He | apply lookup_delete_eq]. }
  assert (Hother : forall k, k <> cacheKey path params ->
                     cache (snd (lookup env (cacheKey path params) w)) !! k
                     = cache w !! k).
  { intros k Hk. unfold lookup. destruct (cache w !! cacheKey _ _) as [e|];
      [|reflexivity].
    destruct (live _ e); simpl; [reflexivity | now apply lookup_delete_ne]. }
  pose proof (CacheFacts.lookup_cache env (cacheKey path params) w) as Hsub.
  pose proof (CacheFacts.lookup_again env (cacheKey path params) w Hlk) as Hagain.
  specialize (Hreq w) as Hreq0.
  assert (Hcall : finnhub env path apiKey params w
                  = (fst (finnhub env path apiKey params w),
                     sent (request_url path apiKey params)
                       (snd (lookup env (cacheKey path params) w)))
                  /\ exists message,
                       fst (finnhub env path apiKey params w) = Throw message).
  { rewrite CacheFacts.finnhub_eq. cbv zeta.
    destruct (lookup env (cacheKey path params) w) as [cached w0].
    simpl in Hlk, Hreq0 |- *. rewrite Hlk, Hreq0.
    destruct (respond env _ _); try discriminate; simpl; eauto. }
  destruct Hcall as [Hcall Hthrow]. rewrite Hcall. simpl snd.
  split; [exact Hthrow|]. simpl requests. simpl cache.
  repeat split; auto.
  - now rewrite Hreq0.
  - intros apiKey'. rewrite CacheFacts.finnhub_eq. cbv zeta.
    specialize (Hagain (sent (request_url path apiKey params)
                          (snd (lookup env (cacheKey path params) w))) eq_refl).
    specialize (Hreq (sent (request_url path apiKey params)
                        (snd (lookup env (cacheKey path params) w)))).
    destruct (lookup env (cacheKey path params) (sent _ _)) as [cached' w0'].
    simpl in Hagain, Hreq. rewrite Hagain.
    destruct (respond env (length (requests w0')) _); simpl; now rewrite Hreq.
Qed.

Lemma failure_not_cached_witness :
  let env := still (HttpError 429 "API limit reached") in
  let key := cacheKey "/quote" [("symbol", "AAPL")] in
  let w1 := snd (finnhub env "/quote" "token" [("symbol", "AAPL")] fresh) in
  ((forall e, cache fresh !! key = Some e ->
              live (clock env (ticks fresh)) e = true -> truthy (data e) = false)
   /\ failed (respond env (length (requests fresh))
                (request_url "/quote" "token" [("symbol", "AAPL")])) = true)
  /\ (exists message,
        fst (finnhub env "/quote" "token" [("symbol", "AAPL")] fresh) = Throw message)
  /\ requests w1 = requests fresh ++ [request_url "/quote" "token" [("symbol", "AAPL")]]
  /\ (forall k, k <> key -> cache w1 !! k = cache fresh !! k)
  /\ cache w1 !! key
     = match cache fresh !! key with
       | Some e => if live (clock env (ticks fresh)) e then Some e else None
       | None => None
       end
  /\ (forall k e, cache w1 !! k = Some e -> cache fresh !! k = Some e)
  /\ forall apiKey',
       requests (snd (finnhub env "/quote" apiKey' [("symbol", "AAPL")] w1))
       = requests w1 ++ [request_url "/quote" apiKey' [("symbol", "AAPL")]].
Proof.
  cbv zeta.
  assert (Hmiss : forall e,
             cache fresh !! cacheKey "/quote" [("symbol", "AAPL")] = Some e ->
             live (clock (still (HttpError 429 "API limit reached")) (ticks fresh)) e
             = true ->
             truthy (data e) = false).
  { intros e He. unfold fresh in He. simpl cache in He.
    rewrite lookup_empty in He. discriminate He. }
  split; [split; [exact Hmiss | reflexivity]|].
  exact (failure_not_cached (still (HttpError 429 "API limit reached")) "/quote"
           "token" [("symbol", "AAPL")] fresh Hmiss eq_refl).
Defined.

(** The store is not always left as it was: a failing call that met an
    expired entry of its key has removed it. *)
Lemma failure_evicts_expired_entry :
  let env := still (HttpError 503 "unavailable") in
  let key := cacheKey "/quote" [("symbol", "AAPL")] in
  let w1 := snd (finnhub env "/quote" "token" [("symbol", "AAPL")] stale) in
  failed (respond env (length (requests stale))
            (request_url "/quote" "token" [("symbol", "AAPL")])) = true
  /\ fst (finnhub env "/quote" "token" [("symbol", "AAPL")] stale)
     = Throw "Finnhub 503: unavailable"
  /\ cache stale !! key = Some {| data := PPeers []; expiry := -1 |}
  /\ cache w1 !! key = None.
Proof. repeat split; vm_compute; reflexivity. Qed.

(** *** Expired entries *)

Module TraceFacts.

Lemma lookup_requests (env : Env) (key : string) (w : World) :
  requests (snd (lookup env key w)) = requests w.
Proof.
  unfold lookup. destruct (cache w !! key) as [e|]; [|reflexivity].
  destruct (live _ e); reflexivity.
Qed.

  (** A step only appends to the requests. *)
Lemma step_requests (env : Env) (op : Op) (w : World) :
  exists l, requests (step env op w) = requests w ++ l.
Proof.
  destruct op as [path apiKey params|key|]; simpl.
  - rewrite CacheFacts.finnhub_eq. cbv zeta.
    pose proof (lookup_requests env (cacheKey path params) w) as Hreq.
    destruct (lookup env (cacheKey path params) w) as [cached w0].
    simpl in Hreq.
    destruct (truthy cached); simpl; [exists []; now rewrite app_nil_r|].
    exists [request_url path apiKey params].
    destruct (respond env _ _); simpl; now rewrite Hreq.
  - rewrite CacheFacts.getCached_eq. simpl. rewrite lookup_requests.
    exists []. now rewrite app_nil_r.
  - exists []. now rewrite app_nil_r.
Qed.

Lemma fetched_since_mono (env : Env) (n0 : nat) (w w' : World) (e : CacheEntry) (l : list Url) :
  requests w' = requests w ++ l ->
  fetched_since env n0 w e -> fetched_since env n0 w' e.
Proof.
  intros Hreq (n & u & Hn & Hu & Hr). exists n, u. repeat split; auto.
  rewrite Hreq. now apply lookup_app_l_Some.
Qed.

Lemma step_fresh_only (env : Env) (key : string) (n0 : nat) (op : Op) (w : World) :
  fresh_only env key n0 w -> fresh_only env key n0 (step env op w).
Proof.
  intros [Hn Hinv].
  destruct (step_requests env op w) as [l Hl].
  split; [rewrite Hl, length_app; lia|].
  intros e He.
  destruct op as [path apiKey params|key'|]; simpl in *.
  - rewrite CacheFacts.finnhub_eq in He, Hl |- *. cbv zeta in *.
    pose proof (CacheFacts.lookup_cache env (cacheKey path params) w key) as Hsub.
    pose proof (lookup_requests env (cacheKey path params) w) as Hreq.
    destruct (lookup env (cacheKey path params) w) as [cached w0].
    simpl in Hsub, Hreq.
    destruct (truthy cached).
    + simpl in *. apply (fetched_since_mono env n0 w _ e l); auto.
    + destruct (respond env (length (requests w0)) _) as [| | |d] eqn:Hr;
        simpl in *;
        try (apply (fetched_since_mono env n0 w _ e l); now auto).
      destruct (decide (cacheKey path params = key)) as [Hk|Hk].
      * rewrite Hk, lookup_insert_eq in He. injection He as <-. simpl.
        exists (length (requests w0)), (request_url path apiKey params).
        split; [rewrite Hreq; lia|]. split; [|exact Hr].
        simpl. rewrite lookup_app_r by lia.
        now rewrite Nat.sub_diag.
      * rewrite lookup_insert_ne in He by exact Hk.
        apply (fetched_since_mono env n0 w _ e l); auto.
  - rewrite CacheFacts.getCached_eq in He, Hl |- *. simpl in *.
    apply (fetched_since_mono env n0 w _ e l); auto.
    apply Hinv. eapply CacheFacts.lookup_cache, He.
  - rewrite lookup_empty in He. discriminate.
Qed.

Lemma run_fresh_only (env : Env) (key : string) (n0 : nat) (ops : list Op) (w : World) :
  fresh_only env key n0 w -> fresh_only env key n0 (run env ops w).
Proof.
  revert w; induction ops as [|op ops IH]; intros w Hw; [exact Hw|].
  apply IH, step_fresh_only, Hw.
Qed.

  (** While a key has no entry, the parts of a call that may interleave
      with other calls leave it so, but for the arrival of a successful
      answer to a call for that key. *)
Lemma begin_keeps_absent (env : Env) (key path apiKey : string)
    (params : Js.Record_string) (w : World) :
  cache w !! key = None ->
  cache (snd (finnhub_begin env path apiKey params w)) !! key = None.
Proof.
  intros Hk. rewrite CacheFacts.finnhub_begin_eq. cbv zeta.
  pose proof (CacheFacts.lookup_cache env (cacheKey path params) w key) as Hsub.
  destruct (lookup env (cacheKey path params) w) as [cached w0]. simpl in Hsub.
  assert (H0 : cache w0 !! key = None).
  { destruct (cache w0 !! key) as [e|] eqn:E; [|reflexivity].
    rewrite (Hsub e eq_refl) in Hk. discriminate. }
  now destruct (truthy cached).
Qed.

Lemma lookup_keeps_absent (env : Env) (key key' : string) (w : World) :
  cache w !! key = None -> cache (snd (getCached env key' w)) !! key = None.
Proof.
  intros Hk. rewrite CacheFacts.getCached_eq. simpl.
  pose proof (CacheFacts.lookup_cache env key' w key) as Hsub.
  destruct (cache (snd (lookup env key' w)) !! key) as [e|] eqn:E; [|reflexivity].
  rewrite (Hsub e eq_refl) in Hk. discriminate.
Qed.

Lemma settle_fills (env : Env) (key : string) (p : Pending) (w : World)
    (e : CacheEntry) :
  cache w !! key = None ->
  cache (snd (finnhub_settle env p w)) !! key = Some e ->
  exists n u,
    p = Waiting key n u /\ respond env n u = Success (data e)
    /\ expiry e = clock env (ticks w) + CACHE_TTL_MS.
Proof.
  intros Hk He. destruct p as [cached|key' n u]; simpl in He; [congruence|].
  destruct (respond env n u) as [| | |d] eqn:Hr; simpl in He; try congruence.
  destruct (decide (key' = key)) as [->|Hne].
  - rewrite lookup_insert_eq in He. injection He as <-. eauto.
  - rewrite lookup_insert_ne in He by exact Hne. congruence.
Qed.

End TraceFacts.

(** C4.  A lookup at a clock reading beyond the expiry of the entry does not
    return the value of the entry: it answers [null] and removes the entry.
    Whatever calls, lookups and deactivations follow, an entry found under
    that key holds the payload of a successful answer to a request sent
    after that lookup.  Step by step, also when calls interleave: while the
    key has no entry, a lookup and the first part of a call leave it so,
    and the second part of a call gives it an entry only as the call for
    that key whose request was answered with success, the entry holding
    that answer and expiring [CACHE_TTL_MS] after the clock reading of the
    store. *)
Theorem expired_entry_gone (env : Env) (key : string) (w : World) (e : CacheEntry) :
  cache w !! key = Some e ->
  expiry e < clock env (ticks w) ->
  getCached env key w
  = (Return PNull, with_cache (delete key (cache w)) (tick w))
  /\ (forall ops e',
        cache (run env ops (snd (getCached env key w))) !! key = Some e' ->
        fetched_since env (length (requests w))
          (run env ops (snd (getCached env key w))) e')
  /\ forall w',
       cache w' !! key = None ->
       (forall key', cache (snd (getCached env key' w')) !! key = None)
       /\ (forall path apiKey params,
             cache (snd (finnhub_begin env path apiKey params w')) !! key = None)
       /\ (forall p e',
             cache (snd (finnhub_settle env p w')) !! key = Some e' ->
             exists n u,
               p = Waiting key n u /\ respond env n u = Success (data e')
               /\ expiry e' = clock env (ticks w') + CACHE_TTL_MS).
Proof.
  intros He Hexp.
  assert (Hg : getCached env key w
               = (Return PNull, with_cache (delete key (cache w)) (tick w))).
  { rewrite CacheFacts.getCached_eq. unfold lookup, live. rewrite He.
    replace (clock env (ticks w) >? expiry e) with true; [reflexivity|].
    symmetry. apply Z.gtb_lt. exact Hexp. }
  split; [exact Hg|]. split.
  - intros ops e'. rewrite Hg. simpl.
    apply (TraceFacts.run_fresh_only env key (length (requests w)) ops).
    split; [simpl; lia|].
    intros e0. simpl. rewrite lookup_delete_eq. discriminate.
  - intros w' Hk. repeat split.
    + intros key'. now apply TraceFacts.lookup_keeps_absent.
    + intros path apiKey params. now apply TraceFacts.begin_keeps_absent.
    + intros p e'. now apply TraceFacts.settle_fills.
Qed.

Lemma expired_entry_gone_witness :
  let env := still (Success (PPeers ["MSFT"])) in
  let key := cacheKey "/quote" [("symbol", "AAPL")] in
  cache stale !! key = Some {| data := PPeers []; expiry := -1 |}
  /\ -1 < clock env (ticks stale)
  /\ getCached env key stale
     = (Return PNull, with_cache (delete key (cache stale)) (tick stale))
  /\ forall ops e',
       cache (run env ops (snd (getCached env key stale))) !! key = Some e' ->
       fetched_since env (length (requests stale))
         (run env ops (snd (getCached env key stale))) e'.
Proof.
  cbv zeta. split; [reflexivity|]. split; [reflexivity|].
  refine ((fun H => conj (proj1 H) (proj1 (proj2 H))) _).
  apply (expired_entry_gone (still (Success (PPeers ["MSFT"])))
           (cacheKey "/quote" [("symbol", "AAPL")]) stale
           {| data := PPeers []; expiry := -1 |}); reflexivity.
Defined.

(** ** Numbers *)

(** The order of the numbers, [NaN] apart, through the specification of the
    comparisons of binary64. *)
Module FloatFacts.

Lemma pos_cmp (m1 m2 : positive) :
  PosDef.Pos.compare_cont Eq m1 m2 = (m1 ?= m2)%positive.
Proof. reflexivity. Qed.

Ltac order_cases :=
  repeat match goal with
  | |- context [PosDef.Pos.compare_cont Eq ?a ?b] =>
      change (PosDef.Pos.compare_cont Eq a b) with (a ?= b)%positive
  end;
  repeat match goal with
  | |- context [(?a ?= ?b)%Z] => destruct (Z.compare_spec a b)
  | |- context [(?a ?= ?b)%positive] => destruct (Pos.compare_spec a b)
  | H : context [(?a ?= ?b)%Z] |- _ => destruct (Z.compare_spec a b)
  | H : context [(?a ?= ?b)%positive] |- _ => destruct (Pos.compare_spec a b)
  end.

Lemma SFcompare_refl (s : spec_float) :
  s <> S754_nan -> SFcompare s s = Some Eq.
Proof.
  destruct s as [b|b| |b m e]; simpl; try congruence; intros _.
  - now destruct b.
  - rewrite pos_cmp, Z.compare_refl, Pos.compare_refl. now destruct b.
Qed.

Lemma SFcompare_swap (s t : spec_float) :
  SFcompare t s = option_map CompOpp (SFcompare s t).
Proof.
  destruct s as [b|b| |b m e], t as [b'|b'| |b' m' e']; simpl;
    try reflexivity; try (now destruct b); try (now destruct b');
    try (now destruct b, b').
  rewrite !pos_cmp, (Z.compare_antisym e e'), (Pos.compare_antisym m m').
  destruct b, b'; simpl; try reflexivity;
    destruct (e ?= e')%Z; simpl; try reflexivity;
    destruct (m ?= m')%positive; reflexivity.
Qed.

Lemma SFcompare_some (s t : spec_float) :
  s <> S754_nan -> t <> S754_nan -> exists c, SFcompare s t = Some c.
Proof.
  destruct s, t; simpl; try congruence; eauto.
Qed.

Lemma SFleb_trans (s t u : spec_float) :
  SFleb s t = true -> SFleb t u = true -> SFleb s u = true.
Proof.
  unfold SFleb.
  destruct s as [b|b| |b m e], t as [b'|b'| |b' m' e'], u as [b''|b''| |b'' m'' e''];
    simpl; try discriminate; try reflexivity;
    try (destruct b; try discriminate; try reflexivity);
    try (destruct b'; try discriminate; try reflexivity);
    try (destruct b''; try discriminate; try reflexivity);
    order_cases; subst; simpl; try discriminate; try reflexivity;
    try lia.
Qed.

Lemma is_nan_false (x : float) :
  PrimFloat.is_nan x = false <-> Prim2SF x <> S754_nan.
Proof.
  unfold PrimFloat.is_nan. rewrite FloatAxioms.eqb_spec. unfold SFeqb. split.
  - intros E N. rewrite N in E. discriminate.
  - intros N. now rewrite SFcompare_refl.
Qed.

Lemma leb_nan_free (x y : float) :
  PrimFloat.leb x y = true -> nan_free x /\ nan_free y.
Proof.
  rewrite FloatAxioms.leb_spec. unfold SFleb. intros E.
  split; apply is_nan_false; intros N; rewrite N in E;
    [|destruct (Prim2SF x)]; discriminate.
Qed.

Lemma leb_refl (x : float) : nan_free x -> PrimFloat.leb x x = true.
Proof.
  intros N. apply is_nan_false in N. rewrite FloatAxioms.leb_spec. unfold SFleb.
  now rewrite SFcompare_refl.
Qed.

Lemma leb_trans (x y z : float) :
  PrimFloat.leb x y = true -> PrimFloat.leb y z = true -> PrimFloat.leb x z = true.
Proof. rewrite !FloatAxioms.leb_spec. apply SFleb_trans. Qed.

Lemma ltb_leb (x y : float) :
  PrimFloat.ltb x y = true -> PrimFloat.leb x y = true.
Proof.
  rewrite FloatAxioms.ltb_spec, FloatAxioms.leb_spec. unfold SFltb, SFleb.
  destruct (SFcompare _ _) as [[]|]; congruence.
Qed.

Lemma not_ltb_leb (x y : float) :
  nan_free x -> nan_free y ->
  PrimFloat.ltb x y = false -> PrimFloat.leb y x = true.
Proof.
  intros Nx Ny. apply is_nan_false in Nx, Ny.
  rewrite FloatAxioms.ltb_spec, FloatAxioms.leb_spec. unfold SFltb, SFleb.
  rewrite (SFcompare_swap (Prim2SF x) (Prim2SF y)).
  destruct (SFcompare_some _ _ Nx Ny) as [c ->]. now destruct c.
Qed.

Lemma is_zero_spec (x : float) :
  PrimFloat.is_zero x = true <-> exists b, Prim2SF x = S754_zero b.
Proof.
  unfold PrimFloat.is_zero. rewrite FloatAxioms.eqb_spec. unfold SFeqb.
  change (Prim2SF PrimFloat.zero) with (S754_zero false).
  destruct (Prim2SF x) as [b|b| |b m e]; simpl; split;
    try discriminate; eauto; try (intros [? ?]; discriminate).
  - now destruct b.
  - now destruct b.
Qed.

Lemma zeros_leb (x y : float) :
  PrimFloat.is_zero x = true -> PrimFloat.is_zero y = true ->
  PrimFloat.leb x y = true.
Proof.
  rewrite !is_zero_spec, FloatAxioms.leb_spec. now intros [b ->] [b' ->].
Qed.

Lemma neg_infinity_leb (x : float) :
  nan_free x -> PrimFloat.leb PrimFloat.neg_infinity x = true.
Proof.
  intros N. apply is_nan_false in N. rewrite FloatAxioms.leb_spec.
  change (Prim2SF PrimFloat.neg_infinity) with (S754_infinity true).
  destruct (Prim2SF x) as [[]|[]| |[] m e]; try reflexivity; congruence.
Qed.

Lemma leb_infinity (x : float) :
  nan_free x -> PrimFloat.leb x PrimFloat.infinity = true.
Proof.
  intros N. apply is_nan_false in N. rewrite FloatAxioms.leb_spec.
  change (Prim2SF PrimFloat.infinity) with (S754_infinity false).
  destruct (Prim2SF x) as [[]|[]| |[] m e]; try reflexivity; congruence.
Qed.

Lemma not_above_neg_infinity (x : float) :
  nan_free x -> PrimFloat.ltb PrimFloat.neg_infinity x = false ->
  x = PrimFloat.neg_infinity.
Proof.
  intros N. apply is_nan_false in N. rewrite FloatAxioms.ltb_spec. intros E.
  apply Prim2SF_inj.
  change (Prim2SF PrimFloat.neg_infinity) with (S754_infinity true) in *.
  destruct (Prim2SF x) as [[]|[]| |[] m e]; try reflexivity;
    try discriminate; congruence.
Qed.

Lemma not_below_infinity (x : float) :
  nan_free x -> PrimFloat.ltb x PrimFloat.infinity = false ->
  x = PrimFloat.infinity.
Proof.
  intros N. apply is_nan_false in N. rewrite FloatAxioms.ltb_spec. intros E.
  apply Prim2SF_inj.
  change (Prim2SF PrimFloat.infinity) with (S754_infinity false) in *.
  destruct (Prim2SF x) as [[]|[]| |[] m e]; try reflexivity;
    try discriminate; congruence.
Qed.

End FloatFacts.

Module MathFacts.
  Import Js FloatFacts.

Lemma existsb_is_nan (l : list float) :
  existsb PrimFloat.is_nan l = false <-> Forall nan_free l.
Proof.
  induction l as [|x l IH]; simpl; [split; auto|].
  rewrite orb_false_iff, IH. split.
  - intros [Hx Hl]. now constructor.
  - intros Hl. inversion Hl; subst. auto.
Qed.

Lemma max_step_spec (h n : float) :
  nan_free h -> nan_free n ->
  (max_step h n = h \/ max_step h n = n)
  /\ PrimFloat.leb h (max_step h n) = true
  /\ PrimFloat.leb n (max_step h n) = true.
Proof.
  intros Hh Hn. unfold max_step.
  destruct (PrimFloat.ltb h n) eqn:Hlt; simpl.
  - repeat split; [now right | now apply ltb_leb | now apply leb_refl].
  - unfold is_pos_zero, is_neg_zero.
    destruct (PrimFloat.is_zero n) eqn:Zn; simpl;
      [destruct (PrimFloat.is_zero h) eqn:Zh; simpl|].
    + destruct (negb (PrimFloat.get_sign n) && PrimFloat.get_sign h).
      * repeat split; [now right | now apply zeros_leb | now apply leb_refl].
      * repeat split; [now left | now apply leb_refl | now apply zeros_leb].
    + rewrite andb_false_r.
      repeat split; [now left | now apply leb_refl | now apply not_ltb_leb].
    + repeat split; [now left | now apply leb_refl | now apply not_ltb_leb].
Qed.

Lemma fold_max_spec (l : list float) (h : float) :
  nan_free h -> Forall nan_free l ->
  nan_free (fold_left max_step l h)
  /\ (fold_left max_step l h = h \/ fold_left max_step l h ∈ l)
  /\ PrimFloat.leb h (fold_left max_step l h) = true
  /\ Forall (fun y => PrimFloat.leb y (fold_left max_step l h) = true) l.
Proof.
  revert h; induction l as [|n l IH]; intros h Hh Hl; simpl.
  - repeat split; [exact Hh | now left | now apply leb_refl | constructor].
  - inversion Hl as [|? ? Hn Hl']; subst.
    destruct (max_step_spec h n Hh Hn) as (Hor & Hhle & Hnle).
    assert (Hh' : nan_free (max_step h n)) by (destruct Hor as [-> | ->]; auto).
    destruct (IH _ Hh' Hl') as (Hr & Hin & Hle & Hall).
    repeat split; [exact Hr | | |].
    + destruct Hin as [-> | Hin].
      * destruct Hor as [-> | ->]; [now left | right; constructor].
      * right. now constructor.
    + eapply leb_trans; eauto.
    + constructor; [eapply leb_trans; eauto | exact Hall].
Qed.

  (** [Math.max] of a non-empty list without [NaN] is an element of the list
      that no element exceeds. *)
Lemma Math_max_spec (l : list float) :
  l <> [] -> Forall nan_free l ->
  Math_max l ∈ l /\ Forall (fun y => PrimFloat.leb y (Math_max l) = true) l.
Proof.
  intros Hne Hl. unfold Math_max.
  rewrite (proj2 (existsb_is_nan l) Hl).
  destruct (fold_max_spec l PrimFloat.neg_infinity eq_refl Hl)
    as (_ & Hin & _ & Hall).
  split; [|exact Hall].
  destruct Hin as [Heq | Hin]; [|exact Hin].
  destruct l as [|x l]; [congruence|].
  rewrite Heq in Hall |- *. inversion Hall as [|? ? Hx _]; subst.
  inversion Hl as [|? ? Nx _]; subst.
  replace x with PrimFloat.neg_infinity; [constructor|].
  symmetry. apply not_above_neg_infinity; [exact Nx|].
  destruct (PrimFloat.ltb PrimFloat.neg_infinity x) eqn:E; [|reflexivity].
  exfalso. revert E Hx. rewrite FloatAxioms.ltb_spec, FloatAxioms.leb_spec.
  change (Prim2SF PrimFloat.neg_infinity) with (S754_infinity true).
  unfold SFltb, SFleb.
  destruct (Prim2SF x) as [[]|[]| |[] m e]; simpl; congruence.
Qed.

Lemma min_step_spec (h n : float) :
  nan_free h -> nan_free n ->
  (min_step h n = h \/ min_step h n = n)
  /\ PrimFloat.leb (min_step h n) h = true
  /\ PrimFloat.leb (min_step h n) n = true.
Proof.
  intros Hh Hn. unfold min_step.
  destruct (PrimFloat.ltb n h) eqn:Hlt; simpl.
  - repeat split; [now right | now apply ltb_leb | now apply leb_refl].
  - unfold is_pos_zero, is_neg_zero.
    destruct (PrimFloat.is_zero n) eqn:Zn; simpl;
      [destruct (PrimFloat.is_zero h) eqn:Zh; simpl|].
    + destruct (PrimFloat.get_sign n && negb (PrimFloat.get_sign h)).
      * repeat split; [now right | now apply zeros_leb | now apply leb_refl].
      * repeat split; [now left | now apply leb_refl | now apply zeros_leb].
    + rewrite andb_false_r.
      repeat split; [now left | now apply leb_refl | now apply not_ltb_leb].
    + repeat split; [now left | now apply leb_refl | now apply not_ltb_leb].
Qed.

Lemma fold_min_spec (l : list float) (h : float) :
  nan_free h -> Forall nan_free l ->
  nan_free (fold_left min_step l h)
  /\ (fold_left min_step l h = h \/ fold_left min_step l h ∈ l)
  /\ PrimFloat.leb (fold_left min_step l h) h = true
  /\ Forall (fun y => PrimFloat.leb (fold_left min_step l h) y = true) l.
Proof.
  revert h; induction l as [|n l IH]; intros h Hh Hl; simpl.
  - repeat split; [exact Hh | now left | now apply leb_refl | constructor].
  - inversion Hl as [|? ? Hn Hl']; subst.
    destruct (min_step_spec h n Hh Hn) as (Hor & Hhle & Hnle).
    assert (Hh' : nan_free (min_step h n)) by (destruct Hor as [-> | ->]; auto).
    destruct (IH _ Hh' Hl') as (Hr & Hin & Hle & Hall).
    repeat split; [exact Hr | | |].
    + destruct Hin as [-> | Hin].
      * destruct Hor as [-> | ->]; [now left | right; constructor].
      * right. now constructor.
    + eapply leb_trans; eauto.
    + constructor; [eapply leb_trans; eauto | exact Hall].
Qed.

  (** [Math.min] of a non-empty list without [NaN] is an element of the list
      that exceeds no element. *)
Lemma Math_min_spec (l : list float) :
  l <> [] -> Forall nan_free l ->
  Math_min l ∈ l /\ Forall (fun y => PrimFloat.leb (Math_min l) y = true) l.
Proof.
  intros Hne Hl. unfold Math_min.
  rewrite (proj2 (existsb_is_nan l) Hl).
  destruct (fold_min_spec l PrimFloat.infinity eq_refl Hl)
    as (_ & Hin & _ & Hall).
  split; [|exact Hall].
  destruct Hin as [Heq | Hin]; [|exact Hin].
  destruct l as [|x l]; [congruence|].
  rewrite Heq in Hall |- *. inversion Hall as [|? ? Hx _]; subst.
  inversion Hl as [|? ? Nx _]; subst.
  replace x with PrimFloat.infinity; [constructor|].
  symmetry. apply not_below_infinity; [exact Nx|].
  destruct (PrimFloat.ltb x PrimFloat.infinity) eqn:E; [|reflexivity].
  exfalso. revert E Hx. rewrite FloatAxioms.ltb_spec, FloatAxioms.leb_spec.
  change (Prim2SF PrimFloat.infinity) with (S754_infinity false).
  unfold SFltb, SFleb.
  destruct (Prim2SF x) as [[]|[]| |[] m e]; simpl; congruence.
Qed.

End MathFacts.

(** ** Clamped arguments *)

Module ClampFacts.
  Import Js FloatFacts.

Lemma truthy_nan_free (x : float) : truthy_number x = true -> nan_free x.
Proof.
  unfold truthy_number, nan_free.
  destruct (PrimFloat.is_zero x), (PrimFloat.is_nan x); simpl; congruence.
Qed.

  (** The two-argument [Math.max] and [Math.min] against a bound that is
      neither zero nor [NaN]. *)
Lemma Math_max_bound (v lo : float) :
  nan_free v -> nan_free lo -> PrimFloat.is_zero lo = false ->
  Math_max [v; lo] = if PrimFloat.ltb v lo then lo else v.
Proof.
  intros Hv Hlo Zlo. unfold Math_max. simpl existsb.
  unfold nan_free in Hv, Hlo. rewrite Hv, Hlo. simpl.
  assert (H1 : max_step PrimFloat.neg_infinity v = v).
  { unfold max_step.
    change (is_neg_zero PrimFloat.neg_infinity) with false.
    rewrite andb_false_r, orb_false_r.
    destruct (PrimFloat.ltb PrimFloat.neg_infinity v) eqn:E; [reflexivity|].
    symmetry. now apply not_above_neg_infinity. }
  rewrite H1. unfold max_step, is_pos_zero. rewrite Zlo. simpl.
  now rewrite orb_false_r.
Qed.

Lemma Math_min_bound (v hi : float) :
  nan_free v -> nan_free hi -> PrimFloat.is_zero hi = false ->
  Math_min [v; hi] = if PrimFloat.ltb hi v then hi else v.
Proof.
  intros Hv Hhi Zhi. unfold Math_min. simpl existsb.
  unfold nan_free in Hv, Hhi. rewrite Hv, Hhi. simpl.
  assert (H1 : min_step PrimFloat.infinity v = v).
  { unfold min_step.
    change (is_pos_zero PrimFloat.infinity) with false.
    rewrite andb_false_r, orb_false_r.
    destruct (PrimFloat.ltb v PrimFloat.infinity) eqn:E; [reflexivity|].
    symmetry. now apply not_below_infinity. }
  rewrite H1. unfold min_step, is_neg_zero. rewrite Zhi. simpl.
  now rewrite orb_false_r.
Qed.

Lemma min_max_clamp (lo hi v : float) :
  nan_free v -> nan_free lo -> nan_free hi ->
  PrimFloat.is_zero lo = false -> PrimFloat.is_zero hi = false ->
  PrimFloat.ltb hi lo = false ->
  Math_min [Math_max [v; lo]; hi] = clamp lo hi v.
Proof.
  intros Hv Hlo Hhi Zlo Zhi Hord.
  rewrite (Math_max_bound v lo Hv Hlo Zlo). unfold clamp.
  destruct (PrimFloat.ltb v lo).
  - rewrite (Math_min_bound lo hi Hlo Hhi Zhi). now rewrite Hord.
  - now rewrite (Math_min_bound v hi Hv Hhi Zhi).
Qed.

Lemma clamp_range (lo hi v : float) :
  nan_free v -> nan_free lo -> nan_free hi ->
  PrimFloat.leb lo hi = true ->
  PrimFloat.leb lo (clamp lo hi v) = true
  /\ PrimFloat.leb (clamp lo hi v) hi = true.
Proof.
  intros Hv Hlo Hhi Hord. unfold clamp.
  destruct (PrimFloat.ltb v lo) eqn:E1.
  - split; [now apply leb_refl | exact Hord].
  - destruct (PrimFloat.ltb hi v) eqn:E2.
    + split; [exact Hord | now apply leb_refl].
    + split; now apply not_ltb_leb.
Qed.

End ClampFacts.

(** C8, as amended.  The candles handler takes [days] to be 30 when the
    argument is not supplied or is falsy (0 or [NaN]) and the argument
    clamped into [1, 365] otherwise; the news handler takes [limit] to be 5
    when the argument is not supplied or is falsy and the argument clamped
    into [1, 20] otherwise.  Either way the value lies in the range. *)
Theorem days_and_limit_clamped (x : option float) :
  candles_days x
  = match x with
    | Some d => if Js.truthy_number d then clamp 1 365 d else 30%float
    | None => 30%float
    end
  /\ PrimFloat.leb 1 (candles_days x) = true
  /\ PrimFloat.leb (candles_days x) 365 = true
  /\ news_limit x
     = match x with
       | Some n => if Js.truthy_number n then clamp 1 20 n else 5%float
       | None => 5%float
       end
  /\ PrimFloat.leb 1 (news_limit x) = true
  /\ PrimFloat.leb (news_limit x) 20 = true.
Proof.
  unfold candles_days, news_limit, Js.or_number.
  destruct x as [d|]; [|repeat split; reflexivity].
  destruct (Js.truthy_number d) eqn:Ht; [|repeat split; reflexivity].
  apply ClampFacts.truthy_nan_free in Ht.
  rewrite !(ClampFacts.min_max_clamp _ _ d) by (exact Ht || reflexivity).
  destruct (ClampFacts.clamp_range 1 365 d) as [? ?]; try (exact Ht || reflexivity).
  destruct (ClampFacts.clamp_range 1 20 d) as [? ?]; try (exact Ht || reflexivity).
  auto 10.
Qed.

(** A supplied 0 is not clamped to 1: the handlers take the default. *)
Lemma zero_takes_the_default :
  candles_days (Some 0%float) = 30%float
  /\ clamp 1 365 0 = 1%float
  /\ news_limit (Some 0%float) = 5%float
  /\ clamp 1 20 0 = 1%float.
Proof. repeat split; reflexivity. Qed.

(** ** Batches *)

Section PromiseAll.
  Context {X : Type} (resume : X -> Pending -> M string)
    (line_of : X -> Pending -> string).
  Hypothesis resume_returns :
    forall x p w, exists w', resume x p w = (Return (line_of x p), w').

Lemma resume_at_lines (xs : list X) (i : nat) (ts : list Task) (w : World) :
  exists ts' w',
    resume_at resume xs i ts w = (Return ts', w')
    /\ zip_with (final_line line_of) xs ts' = zip_with (final_line line_of) xs ts.
Proof.
  unfold resume_at.
  destruct (xs !! i) as [x|] eqn:Hx; [|exists ts, w; auto].
  destruct (ts !! i) as [[line|p]|] eqn:Ht; try (exists ts, w; auto; fail).
  unfold bind. destruct (resume_returns x p w) as (w' & ->).
  exists (<[i := Settled (line_of x p)]> ts), w'. split; [reflexivity|].
  apply list_eq. intros j. rewrite !lookup_zip_with.
  destruct (decide (i = j)) as [<-|Hne].
  - rewrite list_lookup_insert_eq by (eapply lookup_lt_Some; eauto).
    rewrite Hx, Ht. reflexivity.
  - now rewrite list_lookup_insert_ne.
Qed.

Lemma resume_in_order_lines (xs : list X) (order : list nat) (ts : list Task)
    (w : World) :
  exists ts' w',
    resume_in_order resume xs order ts w = (Return ts', w')
    /\ zip_with (final_line line_of) xs ts' = zip_with (final_line line_of) xs ts.
Proof.
  revert ts w; induction order as [|i order IH]; intros ts w; simpl.
  - exists ts, w. auto.
  - unfold bind. destruct (resume_at_lines xs i ts w) as (ts1 & w1 & -> & H1).
    destruct (IH ts1 w1) as (ts2 & w2 & -> & H2).
    exists ts2, w2. split; [reflexivity | congruence].
Qed.

Lemma resume_rest_lines (xs : list X) (ts : list Task) (w : World) :
  exists w', resume_rest resume xs ts w = (Return (zip_with (final_line line_of) xs ts), w').
Proof.
  revert ts w; induction xs as [|x xs IH]; intros [|t ts] w; simpl;
    try (exists w; reflexivity).
  unfold bind.
  assert (Hline : exists w1,
             match t with
             | Settled line => ret line
             | Suspended p => resume x p
             end w = (Return (final_line line_of x t), w1)).
  { destruct t as [line|p]; [exists w; reflexivity | apply resume_returns]. }
  destruct Hline as (w1 & ->). destruct (IH ts w1) as (w2 & ->).
  exists w2. reflexivity.
Qed.

End PromiseAll.

Module HandlerFacts.

Lemma getKey_ok (env : Env) (key : string) (w : World) :
  getSetting env "finnhubApiKey" = Some key -> Js.truthy_string key = true ->
  getKey env w = (Return key, w).
Proof. intros Hs Ht. unfold getKey. now rewrite Hs, Ht. Qed.

Lemma getKey_absent (env : Env) (w : World) :
  getSetting env "finnhubApiKey" = None ->
  getKey env w = (Throw CONFIG_MESSAGE, w).
Proof. intros Hs. unfold getKey. now rewrite Hs. Qed.

Lemma getKey_cases (env : Env) (w : World) :
  (exists key, getKey env w = (Return key, w))
  \/ getKey env w = (Throw CONFIG_MESSAGE, w).
Proof.
  unfold getKey. destruct (getSetting env "finnhubApiKey") as [key|]; [|now right].
  destruct (Js.truthy_string key); [left; now exists key | now right].
Qed.

Lemma finnhub_begin_returns (env : Env) (path apiKey : string)
    (params : Js.Record_string) (w : World) :
  exists p w', finnhub_begin env path apiKey params w = (Return p, w').
Proof.
  rewrite CacheFacts.finnhub_begin_eq. cbv zeta.
  destruct (lookup env _ w) as [cached w0]. destruct (truthy cached); eauto.
Qed.

Lemma finnhub_settle_outcome (env : Env) (p : Pending) (w : World) :
  exists w', finnhub_settle env p w = (fetch_outcome env p, w').
Proof.
  destruct p as [cached|key n u]; simpl; [now exists w|].
  destruct (respond env n u); try (now exists w).
  unfold bind. rewrite CacheFacts.setCache_eq. eauto.
Qed.

Section Tasks.
  Context `{Builtins} (env : Env).

Lemma quotes_begin_returns (x : string) (w : World) :
  exists t w', quotes_begin env x w = (Return t, w').
Proof.
  unfold quotes_begin, attempt, try_catch, bind.
  destruct (getKey_cases env w) as [[key ->] | ->]; [|eauto].
  destruct (finnhub_begin_returns env "/quote" key [("symbol", x)] w)
    as (p & w' & ->). eauto.
Qed.

Lemma quotes_resume_returns (x : string) (p : Pending) (w : World) :
  exists w',
    quotes_resume env x p w = (Return (quotes_result x (fetch_outcome env p)), w').
Proof.
  unfold quotes_resume, attempt, try_catch, bind, lift, quotes_result.
  destruct (finnhub_settle_outcome env p w) as (w' & ->).
  destruct (fetch_outcome env p) as [d|e]; [|now exists w'].
  destruct (quotes_line x d); now exists w'.
Qed.

Lemma peers_begin_returns (x : string) (w : World) :
  exists t w', peers_begin env x w = (Return t, w').
Proof.
  unfold peers_begin, attempt, try_catch, bind.
  destruct (getKey_cases env w) as [[key ->] | ->]; [|eauto].
  destruct (finnhub_begin_returns env "/quote" key [("symbol", x)] w)
    as (p & w' & ->). eauto.
Qed.

Lemma peers_resume_returns (x : string) (p : Pending) (w : World) :
  exists w',
    peers_resume env x p w = (Return (peers_result x (fetch_outcome env p)), w').
Proof.
  unfold peers_resume, attempt, try_catch, bind, lift, peers_result.
  destruct (finnhub_settle_outcome env p w) as (w' & ->).
  destruct (fetch_outcome env p) as [d|e]; [|now exists w'].
  destruct (peers_line x d); now exists w'.
Qed.

End Tasks.

End HandlerFacts.

(** ** The missing key *)

Module MissingKey.

Section Settled.
  Context {X : Type} (resume : X -> Pending -> M string) (f : X -> string).

Lemma resume_in_order_settled (xs : list X) (order : list nat) (w : World) :
  resume_in_order resume xs order (map (fun x => Settled (f x)) xs) w
  = (Return (map (fun x => Settled (f x)) xs), w).
Proof.
  induction order as [|i order IH]; simpl; [reflexivity|].
  unfold bind, resume_at.
  destruct (xs !! i) as [x|] eqn:Hx.
  - rewrite list_lookup_fmap, Hx. simpl. exact IH.
  - exact IH.
Qed.

Lemma resume_rest_settled (xs : list X) (w : World) :
  resume_rest resume xs (map (fun x => Settled (f x)) xs) w
  = (Return (map f xs), w).
Proof.
  induction xs as [|x xs IH]; simpl; [reflexivity|].
  unfold bind, ret. simpl. now rewrite IH.
Qed.

End Settled.

Lemma quotes_begin_all `{Builtins} (env : Env) (xs : list string) (w : World) :
  getSetting env "finnhubApiKey" = None ->
  begin_all (quotes_begin env) xs w
  = (Return (map (fun x => Settled (x +:+ ": Error fetching")) xs), w).
Proof.
  intros Hs. revert w; induction xs as [|x xs IH]; intros w; simpl; [reflexivity|].
  unfold bind at 1.
  assert (Hb : quotes_begin env x w
               = (Return (Settled (x +:+ ": Error fetching")), w)).
  { unfold quotes_begin, attempt, try_catch, bind.
    now rewrite (HandlerFacts.getKey_absent env w Hs). }
  rewrite Hb. unfold bind. now rewrite IH.
Qed.

End MissingKey.

(** ** The calls of a batch *)

Module BatchFacts.

Lemma finnhub_begin_call (env : Env) (path apiKey : string)
    (params : Js.Record_string) (w : World) :
  exists p,
    finnhub_begin env path apiKey params w
    = (Return p, begun env path apiKey params w)
    /\ fetch_outcome env p = call_outcome env path apiKey params w.
Proof.
  rewrite CacheFacts.finnhub_begin_eq. cbv zeta. unfold begun, call_outcome.
  pose proof (TraceFacts.lookup_requests env (cacheKey path params) w) as Hreq.
  destruct (lookup env (cacheKey path params) w) as [cached w0]. simpl in *.
  destruct (truthy cached); eexists; (split; [reflexivity|]); simpl;
    [reflexivity | now rewrite Hreq].
Qed.

Lemma quotes_begin_call `{Builtins} (env : Env) (key x : string) (w : World) :
  getSetting env "finnhubApiKey" = Some key -> Js.truthy_string key = true ->
  exists p,
    quotes_begin env x w
    = (Return (Suspended p), begun env "/quote" key [("symbol", x)] w)
    /\ fetch_outcome env p = call_outcome env "/quote" key [("symbol", x)] w.
Proof.
  intros Hs Ht.
  destruct (finnhub_begin_call env "/quote" key [("symbol", x)] w) as (p & Hb & Hp).
  exists p. split; [|exact Hp].
  unfold quotes_begin, attempt, try_catch, bind.
  now rewrite (HandlerFacts.getKey_ok env key w Hs Ht), Hb.
Qed.

Lemma peers_begin_call (env : Env) (key x : string) (w : World) :
  getSetting env "finnhubApiKey" = Some key -> Js.truthy_string key = true ->
  exists p,
    peers_begin env x w
    = (Return (Suspended p), begun env "/quote" key [("symbol", x)] w)
    /\ fetch_outcome env p = call_outcome env "/quote" key [("symbol", x)] w.
Proof.
  intros Hs Ht.
  destruct (finnhub_begin_call env "/quote" key [("symbol", x)] w) as (p & Hb & Hp).
  exists p. split; [|exact Hp].
  unfold peers_begin, attempt, try_catch, bind.
  now rewrite (HandlerFacts.getKey_ok env key w Hs Ht), Hb.
Qed.

Section Calls.
  Context (env : Env) (key : string) (begin : string -> M Task)
    (resume : string -> Pending -> M string)
    (result : string -> Outcome Payload -> string).
  Hypothesis begin_call :
    forall x w,
      exists p,
        begin x w = (Return (Suspended p), begun env "/quote" key [("symbol", x)] w)
        /\ fetch_outcome env p = call_outcome env "/quote" key [("symbol", x)] w.
  Hypothesis resume_returns :
    forall x p w,
      exists w', resume x p w = (Return (result x (fetch_outcome env p)), w').

  (** Task [i] is the call for item [i], begun in the world the calls for
      the items before it left. *)
Lemma begin_all_calls (xs : list string) (w : World) :
  exists ts,
    begin_all begin xs w = (Return ts, quotes_begun env key xs w)
    /\ length ts = length xs
    /\ forall i x,
         xs !! i = Some x ->
         exists p,
           ts !! i = Some (Suspended p)
           /\ fetch_outcome env p
              = call_outcome env "/quote" key [("symbol", x)]
                  (quotes_begun env key (take i xs) w).
Proof.
  revert w. induction xs as [|x xs IH]; intros w.
  - exists []. repeat split. intros i x Hx. now rewrite lookup_nil in Hx.
  - destruct (begin_call x w) as (p & Hb & Hp).
    destruct (IH (begun env "/quote" key [("symbol", x)] w)) as (ts & Hts & Hlen & Hi).
    exists (Suspended p :: ts). simpl. unfold bind. rewrite Hb, Hts.
    split; [reflexivity|]. split; [simpl; now rewrite Hlen|].
    intros [|i] y Hy; simpl in Hy |- *.
    + injection Hy as <-. exists p. auto.
    + apply Hi. exact Hy.
Qed.

  (** The lines of the batch, for every completion order. *)
Lemma Promise_all_calls (xs : list string) (w : World) :
  exists lines,
    length lines = length xs
    /\ (forall i x,
          xs !! i = Some x ->
          lines !! i
          = Some (result x (call_outcome env "/quote" key [("symbol", x)]
                              (quotes_begun env key (take i xs) w))))
    /\ forall order,
         exists w', Promise_all begin resume order xs w = (Return lines, w').
Proof.
  destruct (begin_all_calls xs w) as (ts & Hb & Hlen & Hi).
  exists (zip_with (final_line (fun x p => result x (fetch_outcome env p))) xs ts).
  split; [rewrite length_zip_with; lia|]. split.
  - intros i x Hx. destruct (Hi i x Hx) as (p & Ht & Hp).
    rewrite lookup_zip_with, Hx. simpl. rewrite Ht. simpl. now rewrite Hp.
  - intros order. unfold Promise_all, bind. rewrite Hb.
    destruct (resume_in_order_lines resume
                (fun x p => result x (fetch_outcome env p)) resume_returns
                xs order ts (quotes_begun env key xs w)) as (ts' & w2 & -> & <-).
    apply (resume_rest_lines resume
             (fun x p => result x (fetch_outcome env p)) resume_returns).
Qed.

End Calls.

End BatchFacts.

(** C6.  With the key configured, the text of [stock_quotes] is made of one
    line per input symbol, in the order of the input, and it is the same
    for every order in which the fetches complete.  Line [i] is the line of
    symbol [i] for the outcome of its own call: the call for the quote of
    that symbol, begun once the calls for the symbols before it had begun,
    which ends with the payload cached under its own key or with the answer
    of the upstream to its own request.  The same holds of the lines of
    [stock_peers] under its heading, for the peers it asks quotes for.  When
    the fetch of a symbol fails, its line is the placeholder of that symbol;
    the other lines, being those of their own calls, are as they would be.
    Without the key every line of [stock_quotes] is the placeholder of its
    symbol. *)
Theorem batch_lines_in_input_order `{Builtins} (env : Env) (w : World) :
  (forall key symbols,
     getSetting env "finnhubApiKey" = Some key -> Js.truthy_string key = true ->
     exists lines,
       length lines = length symbols
       /\ (forall i x,
             map toUpperCase symbols !! i = Some x ->
             lines !! i
             = Some (quotes_result x
                       (call_outcome env "/quote" key [("symbol", x)]
                          (quotes_begun env key
                             (take i (map toUpperCase symbols)) w))))
       /\ forall order,
            fst (stock_quotes env order symbols w)
            = Return {| content := [{| type_ := "text"; text := Js.join nl lines |}];
                        isError := false |})
  /\ (forall symbols order,
        getSetting env "finnhubApiKey" = None ->
        fst (stock_quotes env order symbols w)
        = Return {| content :=
                      [{| type_ := "text";
                          text := Js.join nl
                                    (map (fun s => toUpperCase s +:+ ": Error fetching")
                                       symbols) |}];
                    isError := false |})
  /\ (forall key symbol p ps w1,
        getSetting env "finnhubApiKey" = Some key -> Js.truthy_string key = true ->
        finnhub env "/stock/peers" key
          [("symbol", toUpperCase symbol); ("grouping", "industry")] w
        = (Return (PPeers (p :: ps)), w1) ->
        exists lines,
          length lines = length (topPeers (toUpperCase symbol) (p :: ps))
          /\ (forall i x,
                topPeers (toUpperCase symbol) (p :: ps) !! i = Some x ->
                lines !! i
                = Some (peers_result x
                          (call_outcome env "/quote" key [("symbol", x)]
                             (quotes_begun env key
                                (take i (topPeers (toUpperCase symbol) (p :: ps)))
                                w1))))
          /\ forall order,
               fst (stock_peers env order symbol w)
               = Return {| content :=
                             [{| type_ := "text";
                                 text := "Peers of " +:+ toUpperCase symbol +:+ ":"
                                         +:+ nl +:+ Js.join nl lines |}];
                           isError := false |})
  /\ (forall key x w0,
        (forall e, cache w0 !! cacheKey "/quote" [("symbol", x)] = Some e ->
                   live (clock env (ticks w0)) e = true -> truthy (data e) = false) ->
        failed (respond env (length (requests w0))
                  (request_url "/quote" key [("symbol", x)])) = true ->
        quotes_result x (call_outcome env "/quote" key [("symbol", x)] w0)
        = x +:+ ": Error fetching"
        /\ peers_result x (call_outcome env "/quote" key [("symbol", x)] w0)
           = x +:+ ": Error").
Proof.
  split; [|split; [|split]].
  - intros key symbols Hs Ht.
    destruct (BatchFacts.Promise_all_calls env key (quotes_begin env)
                (quotes_resume env) quotes_result
                (fun x w => BatchFacts.quotes_begin_call env key x w Hs Ht)
                (HandlerFacts.quotes_resume_returns env)
                (map toUpperCase symbols) w) as (lines & Hlen & Hi & Hall).
    exists lines. rewrite length_map in Hlen. repeat split; [exact Hlen | exact Hi |].
    intros order. destruct (Hall order) as (w' & Hp).
    unfold stock_quotes, handler_body, try_catch, bind. rewrite Hp. reflexivity.
  - intros symbols order Hs.
    unfold stock_quotes, handler_body, try_catch, bind, Promise_all, bind.
    rewrite (MissingKey.quotes_begin_all env _ w Hs).
    rewrite MissingKey.resume_in_order_settled, MissingKey.resume_rest_settled.
    now rewrite map_map.
  - intros key symbol p ps w1 Hs Ht Hcall.
    destruct (BatchFacts.Promise_all_calls env key (peers_begin env)
                (peers_resume env) peers_result
                (fun x w => BatchFacts.peers_begin_call env key x w Hs Ht)
                (HandlerFacts.peers_resume_returns env)
                (topPeers (toUpperCase symbol) (p :: ps)) w1)
      as (lines & Hlen & Hi & Hall).
    exists lines. repeat split; [exact Hlen | exact Hi |].
    intros order. destruct (Hall order) as (w' & Hp).
    unfold stock_peers, handler_body, try_catch, bind.
    rewrite (HandlerFacts.getKey_ok env key w Hs Ht), Hcall, Hp. reflexivity.
  - intros key x w0 Hmiss Hf. unfold call_outcome.
    assert (Hlk : truthy (fst (lookup env (cacheKey "/quote" [("symbol", x)]) w0))
                  = false).
    { unfold lookup. destruct (cache w0 !! _) as [e|] eqn:He; [|reflexivity].
      destruct (live _ e) eqn:Hl; simpl; [eauto | reflexivity]. }
    rewrite Hlk. destruct (respond env _ _); try discriminate; auto.
Qed.

Lemma batch_lines_in_input_order_witness :
  let env :=
    scripted [ Success (PPeers ["AAPL"; "MSFT"; "GOOGL"]);
               HttpError 500 "down"; Success (PQuote a_quote) ] in
  let w1 :=
    snd (finnhub env "/stock/peers" "token"
           [("symbol", @toUpperCase plain "aapl"); ("grouping", "industry")] fresh) in
  (getSetting env "finnhubApiKey" = Some "token"
   /\ Js.truthy_string "token" = true
   /\ finnhub env "/stock/peers" "token"
        [("symbol", @toUpperCase plain "aapl"); ("grouping", "industry")] fresh
      = (Return (PPeers ["AAPL"; "MSFT"; "GOOGL"]), w1)
   /\ topPeers (@toUpperCase plain "aapl") ["AAPL"; "MSFT"; "GOOGL"]
      = ["MSFT"; "GOOGL"])
  /\ forall order,
       fst (@stock_peers plain env order "aapl" fresh)
       = Return {| content :=
                     [{| type_ := "text";
                         text := "Peers of AAPL:" +:+ nl +:+ "MSFT: Error"
                                 +:+ nl +:+ "GOOGL: $# (+#%)" |}];
                   isError := false |}.
Proof.
  intros env w1. split; [repeat split; reflexivity|].
  destruct (proj1 (proj2 (proj2 (@batch_lines_in_input_order plain env fresh)))
              "token" "aapl" "AAPL" ["MSFT"; "GOOGL"] w1 eq_refl eq_refl eq_refl)
    as (lines & Hlen & Hi & Hall).
  pose proof (Hi 0%nat "MSFT" eq_refl) as H0.
  pose proof (Hi 1%nat "GOOGL" eq_refl) as H1.
  destruct lines as [|a [|b [|c lines]]]; try discriminate Hlen.
  vm_compute in H0, H1. injection H0 as ->. injection H1 as ->.
  exact Hall.
Defined.

(** C5, on the code.  With the API key setting absent no handler sends a
    request or touches the store, and seven of them return the
    configuration error; [stock_quotes] returns a success whose lines read
    "Error fetching", one per symbol. *)
Theorem missing_key_results `{Builtins} (env : Env) (w : World) :
  getSetting env "finnhubApiKey" = None ->
  (forall s, stock_quote env s w = (Return (err CONFIG_MESSAGE), w))
  /\ (forall q, stock_search env q w = (Return (err CONFIG_MESSAGE), w))
  /\ (forall s, stock_company_profile env s w = (Return (err CONFIG_MESSAGE), w))
  /\ (forall a, stock_candles env a w = (Return (err CONFIG_MESSAGE), tick w))
  /\ (forall a, fst (stock_news env a w) = Return (err CONFIG_MESSAGE)
                /\ cache (snd (stock_news env a w)) = cache w
                /\ requests (snd (stock_news env a w)) = requests w)
  /\ (forall order s, stock_peers env order s w = (Return (err CONFIG_MESSAGE), w))
  /\ (forall s, stock_metrics env s w = (Return (err CONFIG_MESSAGE), w))
  /\ (forall order symbols,
        stock_quotes env order symbols w
        = (Return (ok (Js.join nl
             (map (fun s => toUpperCase s +:+ ": Error fetching") symbols))), w)).
Proof.
  intros Hs.
  pose proof (fun w => HandlerFacts.getKey_absent env w Hs) as Hk.
  repeat split; intros.
  - unfold stock_quote, handler_body, try_catch, bind. now rewrite Hk.
  - unfold stock_search, handler_body, try_catch, bind. now rewrite Hk.
  - unfold stock_company_profile, handler_body, try_catch, bind. now rewrite Hk.
  - unfold stock_candles, handler_body, try_catch, bind, Date_now.
    now rewrite Hk.
  - unfold stock_news, handler_body, try_catch, bind, if_symbol, Date_now.
    destruct (news_symbol (na_symbol a)) as [s|]; [destruct (Js.truthy_string s)|];
      now rewrite Hk.
  - unfold stock_news, handler_body, try_catch, bind, if_symbol, Date_now.
    destruct (news_symbol (na_symbol a)) as [s|]; [destruct (Js.truthy_string s)|];
      now rewrite Hk.
  - unfold stock_news, handler_body, try_catch, bind, if_symbol, Date_now.
    destruct (news_symbol (na_symbol a)) as [s|]; [destruct (Js.truthy_string s)|];
      now rewrite Hk.
  - unfold stock_peers, handler_body, try_catch, bind. now rewrite Hk.
  - unfold stock_metrics, handler_body, try_catch, bind. now rewrite Hk.
  - unfold stock_quotes, handler_body, try_catch, bind, Promise_all, bind.
    rewrite (MissingKey.quotes_begin_all env _ w Hs).
    rewrite MissingKey.resume_in_order_settled, MissingKey.resume_rest_settled.
    now rewrite map_map.
Qed.

Lemma missing_key_results_witness :
  getSetting unconfigured "finnhubApiKey" = None
  /\ @stock_quote plain unconfigured "aapl" fresh = (Return (err CONFIG_MESSAGE), fresh)
  /\ @stock_quotes plain unconfigured [] ["aapl"; "msft"] fresh
     = (Return (ok (Js.join nl ["AAPL: Error fetching"; "MSFT: Error fetching"])),
        fresh).
Proof.
  split; [reflexivity|].
  pose proof (@missing_key_results plain unconfigured fresh eq_refl)
    as (Hq & _ & _ & _ & _ & _ & _ & Hqs).
  split; [apply Hq | apply (Hqs [] ["aapl"; "msft"])].
Defined.

(** ** Results that carry no data *)

Module ResultFacts.

  (** A handler that asks for its key, calls [finnhub] once and renders the
      payload. *)
Lemma via_finnhub (env : Env) (key path : string) (params : Js.Record_string)
    (render : Payload -> Outcome ToolResult) (w w1 : World) (p : Payload) :
  getSetting env "finnhubApiKey" = Some key -> Js.truthy_string key = true ->
  finnhub env path key params w = (Return p, w1) ->
  handler_body
    (do key <- getKey env;
     do x <- finnhub env path key params;
     lift (render x)) w
  = (Return (settle (render p)), w1).
Proof.
  intros Hs Ht Hcall. unfold handler_body, try_catch, bind, lift.
  rewrite (HandlerFacts.getKey_ok env key w Hs Ht), Hcall.
  now destruct (render p).
Qed.

Lemma falsy_zero (x : float) :
  PrimFloat.is_zero x = true -> Js.truthy_number x = false.
Proof. intros Hz. unfold Js.truthy_number. now rewrite Hz. Qed.

End ResultFacts.

(** C9, as amended.  When the quote of the symbol has its current price and
    its open both zero, the quote tool returns an error result whose text
    is the message of the specification for the upper-cased symbol followed
    by " Check the ticker and try again.". *)
Theorem zero_quote_is_no_data `{Builtins} (env : Env) (symbol key : string)
    (w w1 : World) (q : FinnhubQuote) :
  getSetting env "finnhubApiKey" = Some key -> Js.truthy_string key = true ->
  finnhub env "/quote" key [("symbol", toUpperCase symbol)] w
  = (Return (PQuote q), w1) ->
  PrimFloat.is_zero (q_c q) = true -> PrimFloat.is_zero (q_o q) = true ->
  stock_quote env symbol w
  = (Return
       {| content :=
            [{| type_ := "text";
                text := no_data_message (toUpperCase symbol)
                        +:+ " Check the ticker and try again." |}];
          isError := true |},
     w1).
Proof.
  intros Hs Ht Hcall Hc Ho. unfold stock_quote. cbv zeta.
  rewrite (ResultFacts.via_finnhub env key _ _ _ w w1 _ Hs Ht Hcall).
  unfold render_quote, as_quote.
  rewrite (ResultFacts.falsy_zero _ Hc), (ResultFacts.falsy_zero _ Ho). simpl.
  unfold err, no_data_message. rewrite !KeyFacts.app_assoc. reflexivity.
Qed.

Lemma zero_quote_is_no_data_witness :
  let env := still (Success (PQuote zero_quote)) in
  (getSetting env "finnhubApiKey" = Some "token"
   /\ Js.truthy_string "token" = true
   /\ PrimFloat.is_zero (q_c zero_quote) = true
   /\ PrimFloat.is_zero (q_o zero_quote) = true)
  /\ @stock_quote plain env "zzzz" fresh
     = (Return
          {| content :=
               [{| type_ := "text";
                   text := no_data_message (@toUpperCase plain "zzzz")
                           +:+ " Check the ticker and try again." |}];
             isError := true |},
        snd (finnhub env "/quote" "token" [("symbol", @toUpperCase plain "zzzz")]
               fresh)).
Proof.
  cbv zeta. split; [repeat split; reflexivity|].
  apply (@zero_quote_is_no_data plain (still (Success (PQuote zero_quote)))
           "zzzz" "token" fresh _ zero_quote); reflexivity.
Defined.

(** For the all-zero quote of "ZZZZ" the text of the error is longer than
    the message of the specification. *)
Lemma zero_quote_text_is_longer :
  fst (@stock_quote plain (still (Success (PQuote zero_quote))) "zzzz" fresh)
  = Return (err (no_data_message "ZZZZ" +:+ " Check the ticker and try again."))
  /\ String.eqb (no_data_message "ZZZZ" +:+ " Check the ticker and try again.")
                (no_data_message "ZZZZ") = false.
Proof. split; vm_compute; reflexivity. Qed.

(** C10.  With the key configured, a news call answered with no article (an
    empty list, or [null]) returns a success: a result whose [isError] is
    false and whose one content item is the text saying that there is no
    news, for market news and for the news of a company alike.  The quote,
    search, candles, profile, metrics and peers tools return an error
    result, with [isError] true, when their call is answered with nothing to
    show. *)
Theorem empty_news_is_not_an_error `{Builtins} (env : Env) (key : string) (w : World) :
  getSetting env "finnhubApiKey" = Some key -> Js.truthy_string key = true ->
  (forall a d w1,
     na_symbol a = None \/ na_symbol a = Some EmptyString ->
     d = PNews [] \/ d = PNull ->
     finnhub env "/news" key [("category", "general")] w = (Return d, w1) ->
     stock_news env a w
     = (Return {| content := [{| type_ := "text";
                                 text := "No market news available." |}];
                  isError := false |}, w1))
  /\ (forall a s d w1,
        na_symbol a = Some s -> Js.truthy_string s = true ->
        Js.truthy_string (toUpperCase s) = true ->
        d = PNews [] \/ d = PNull ->
        finnhub env "/company-news" key
          (company_news_query (toUpperCase s)
             (clock env (ticks w)) (clock env (S (ticks w))))
          (tick (tick w))
        = (Return d, w1) ->
        stock_news env a w
        = (Return {| content := [{| type_ := "text";
                                    text := "No recent news for " +:+ toUpperCase s
                                            +:+ "." |}];
                     isError := false |}, w1))
  /\ (forall s q w1,
        finnhub env "/quote" key [("symbol", toUpperCase s)] w
        = (Return (PQuote q), w1) ->
        Js.truthy_number (q_c q) = false -> Js.truthy_number (q_o q) = false ->
        fst (stock_quote env s w)
        = Return {| content := [{| type_ := "text";
                                   text := "No data found for symbol " +:+ dq
                                           +:+ toUpperCase s +:+ dq
                                           +:+ ". Check the ticker and try again." |}];
                    isError := true |})
  /\ (forall query r w1,
        finnhub env "/search" key [("q", query)] w = (Return (PSearch r), w1) ->
        s_result r = Some [] ->
        fst (stock_search env query w)
        = Return {| content := [{| type_ := "text";
                                   text := "No results for " +:+ dq +:+ query +:+ dq
                                           +:+ "." |}];
                    isError := true |})
  /\ (forall a k w1,
        finnhub env "/stock/candle" key
          (candles_query (toUpperCase (ca_symbol a))
             (Js.or_string (ca_resolution a) "D") (candles_days (ca_days a))
             (clock env (ticks w)))
          (tick w)
        = (Return (PCandles k), w1) ->
        k_c k = Some [] ->
        fst (stock_candles env a w)
        = Return {| content := [{| type_ := "text";
                                   text := "No candle data for " +:+ dq
                                           +:+ toUpperCase (ca_symbol a) +:+ dq
                                           +:+ " with resolution "
                                           +:+ Js.or_string (ca_resolution a) "D"
                                           +:+ " over "
                                           +:+ String_of_number
                                                 (candles_days (ca_days a))
                                           +:+ " days." |}];
                    isError := true |})
  /\ (forall s p w1,
        finnhub env "/stock/profile2" key [("symbol", toUpperCase s)] w
        = (Return (PProfile p), w1) ->
        p_name p = EmptyString ->
        fst (stock_company_profile env s w)
        = Return {| content := [{| type_ := "text";
                                   text := "No company profile found for " +:+ dq
                                           +:+ toUpperCase s +:+ dq +:+ "." |}];
                    isError := true |})
  /\ (forall s m w1,
        finnhub env "/stock/metric" key [("symbol", toUpperCase s); ("metric", "all")] w
        = (Return (PMetrics m), w1) ->
        m_metric m = Some [] ->
        fst (stock_metrics env s w)
        = Return {| content := [{| type_ := "text";
                                   text := "No metrics found for " +:+ dq
                                           +:+ toUpperCase s +:+ dq +:+ "." |}];
                    isError := true |})
  /\ (forall order s w1,
        finnhub env "/stock/peers" key
          [("symbol", toUpperCase s); ("grouping", "industry")] w
        = (Return (PPeers []), w1) ->
        fst (stock_peers env order s w)
        = Return {| content := [{| type_ := "text";
                                   text := "No peers found for " +:+ dq
                                           +:+ toUpperCase s +:+ dq +:+ "." |}];
                    isError := true |}).
Proof.
  intros Hs Ht.
  pose proof (fun w => HandlerFacts.getKey_ok env key w Hs Ht) as Hk.
  repeat split.
  - intros a d w1 Hsym Hd Hcall.
    unfold stock_news, handler_body, try_catch, bind, lift, if_symbol, news_symbol.
    destruct Hsym as [-> | ->]; simpl; rewrite Hk, Hcall;
      destruct Hd as [-> | ->]; reflexivity.
  - intros a s d w1 Hsym Htr Hup Hd Hcall.
    unfold stock_news, handler_body, try_catch, bind, lift, if_symbol, news_symbol,
      Date_now.
    rewrite Hsym, Htr, Hup, Hk. fold (tick w). fold (tick (tick w)).
    simpl ticks. rewrite Hcall. unfold render_news, if_symbol. rewrite Hup.
    destruct Hd as [-> | ->]; reflexivity.
  - intros s q w1 Hcall Hc Ho. unfold stock_quote. cbv zeta.
    rewrite (ResultFacts.via_finnhub env key _ _ _ w w1 _ Hs Ht Hcall).
    unfold render_quote, as_quote. now rewrite Hc, Ho.
  - intros query r w1 Hcall Hr. unfold stock_search. cbv zeta.
    rewrite (ResultFacts.via_finnhub env key _ _ _ w w1 _ Hs Ht Hcall).
    unfold render_search. now rewrite Hr.
  - intros a k w1 Hcall Hc.
    unfold stock_candles, handler_body, try_catch, bind, lift, Date_now.
    fold (tick w). rewrite Hk, Hcall. unfold render_candles. rewrite Hc.
    destruct (negb (String.eqb (k_s k) "ok")); reflexivity.
  - intros s p w1 Hcall Hn. unfold stock_company_profile. cbv zeta.
    rewrite (ResultFacts.via_finnhub env key _ _ _ w w1 _ Hs Ht Hcall).
    unfold render_profile. now rewrite Hn.
  - intros s m w1 Hcall Hm. unfold stock_metrics. cbv zeta.
    rewrite (ResultFacts.via_finnhub env key _ _ _ w w1 _ Hs Ht Hcall).
    unfold render_metrics. now rewrite Hm.
  - intros order s w1 Hcall.
    unfold stock_peers, handler_body, try_catch, bind.
    now rewrite Hk, Hcall.
Qed.

Lemma empty_news_is_not_an_error_witness :
  let env := still (Success (PNews [])) in
  let market := {| na_symbol := None; na_limit := None |} in
  let company := {| na_symbol := Some "aapl"; na_limit := None |} in
  (getSetting env "finnhubApiKey" = Some "token" /\ Js.truthy_string "token" = true
   /\ Js.truthy_string "aapl" = true
   /\ Js.truthy_string (@toUpperCase plain "aapl") = true)
  /\ @stock_news plain env market fresh
     = (Return {| content := [{| type_ := "text";
                                 text := "No market news available." |}];
                  isError := false |},
        snd (finnhub env "/news" "token" [("category", "general")] fresh))
  /\ @stock_news plain env company fresh
     = (Return {| content := [{| type_ := "text";
                                 text := "No recent news for "
                                         +:+ @toUpperCase plain "aapl" +:+ "." |}];
                  isError := false |},
        snd (finnhub env "/company-news" "token"
               (@company_news_query plain (@toUpperCase plain "aapl")
                  (clock env (ticks fresh)) (clock env (S (ticks fresh))))
               (tick (tick fresh)))).
Proof.
  cbv zeta. split; [repeat split; reflexivity|].
  destruct (@empty_news_is_not_an_error plain (still (Success (PNews [])))
              "token" fresh eq_refl eq_refl) as (Hmarket & Hcompany & _).
  split.
  - apply (Hmarket {| na_symbol := None; na_limit := None |} (PNews []));
      [left; reflexivity | left; reflexivity | reflexivity].
  - apply (Hcompany {| na_symbol := Some "aapl"; na_limit := None |} "aapl" (PNews []));
      [reflexivity | reflexivity | reflexivity | left; reflexivity | reflexivity].
Defined.

(** ** The candle report *)

Module CandleFacts.

Section Points.
  Context `{Builtins} (k : FinnhubCandles) (c : list float).
  Hypothesis len_t : length (k_t k) = length c.
  Hypothesis len_o : length (k_o k) = length c.
  Hypothesis len_h : length (k_h k) = length c.
  Hypothesis len_l : length (k_l k) = length c.
  Hypothesis len_v : length (k_v k) = length c.

Lemma formatted_at (f : float -> string) (a : list float) (i : nat) :
  (i < length a)%nat -> formatted f a i = Return (f (nth i a 0%float)).
Proof.
  intros Hi. unfold formatted.
  destruct (lookup_lt_is_Some_2 a i Hi) as [x Hx].
  now rewrite Hx, (nth_lookup_Some a i 0%float x Hx).
Qed.

Lemma candle_point_at (i : nat) :
  (i < length c)%nat ->
  candle_point k c i = Return (candle_line (candle_at k c i)).
Proof.
  intros Hi. unfold candle_point.
  rewrite !formatted_at by lia.
  destruct (lookup_lt_is_Some_2 (k_t k) i ltac:(lia)) as [t Ht].
  unfold candle_line, candle_at. simpl.
  now rewrite Ht, (nth_lookup_Some (k_t k) i 0%float t Ht).
Qed.

Lemma candle_points_at (steps i : nat) (lines : list string) :
  (i + steps <= length c)%nat ->
  candle_points k c i steps lines
  = Return (lines ++ map (fun j => candle_line (candle_at k c j)) (seq i steps)).
Proof.
  revert i lines; induction steps as [|steps IH]; intros i lines Hi; simpl.
  - now rewrite app_nil_r.
  - rewrite candle_point_at by lia. rewrite IH by lia.
    now rewrite <- app_assoc.
Qed.

Lemma last_points (t : nat) :
  (t <= length c)%nat ->
  map (fun j => candle_line (candle_at k c j)) (seq (length c - t) t)
  = map candle_line (drop (length c - t) (series k c)).
Proof.
  intros Ht. unfold series.
  rewrite <- (fmap_drop (candle_at k c)), drop_seq, map_map. simpl.
  now replace (length c - (length c - t))%nat with t by lia.
Qed.

End Points.

End CandleFacts.

(** C7.  For a series with status "ok" and at least one data point, the six
    arrays of equal length, the candles tool reports the period return as
    (last close - first close) / first close * 100, the period high as
    [Math.max] of the highs and the period low as [Math.min] of the lows,
    the average volume as the sum of the volumes over their number (rounded
    for display), and then lists the final min(5, length) data points of
    the series, in order.  With no [NaN] among them, the reported high is
    one of the highs and none exceeds it, and the reported low is one of the
    lows and exceeds none. *)
Theorem candles_report_statistics `{Builtins} (env : Env) (a : CandlesArgs)
    (key : string) (w w1 : World) (k : FinnhubCandles) (first : float)
    (rest : list float) :
  getSetting env "finnhubApiKey" = Some key -> Js.truthy_string key = true ->
  finnhub env "/stock/candle" key
    (candles_query (toUpperCase (ca_symbol a)) (Js.or_string (ca_resolution a) "D")
       (candles_days (ca_days a)) (clock env (ticks w)))
    (tick w)
  = (Return (PCandles k), w1) ->
  k_s k = "ok" -> k_c k = Some (first :: rest) ->
  length (k_t k) = length (first :: rest) ->
  length (k_o k) = length (first :: rest) ->
  length (k_h k) = length (first :: rest) ->
  length (k_l k) = length (first :: rest) ->
  length (k_v k) = length (first :: rest) ->
  stock_candles env a w
  = (Return (ok (Js.join nl
       (candles_report (toUpperCase (ca_symbol a))
          (Js.or_string (ca_resolution a) "D") (candles_days (ca_days a))
          (length (first :: rest))
          (List.last (first :: rest) first) first
          (((List.last (first :: rest) first - first) / first) * 100)%float
          (Js.Math_max (k_h k)) (Js.Math_min (k_l k))
          (fold_left PrimFloat.add (k_v k) 0
           / Js.number_of_Z (Z.of_nat (length (k_v k))))%float
        ++ [ ""; "Last " +:+ pretty (Nat.min 5 (length (first :: rest)))
                 +:+ " data points:" ]
        ++ map candle_line
             (drop (length (first :: rest) - Nat.min 5 (length (first :: rest)))
                (series k (first :: rest)))))),
     w1)
  /\ length (drop (length (first :: rest) - Nat.min 5 (length (first :: rest)))
               (series k (first :: rest)))
     = Nat.min 5 (length (first :: rest))
  /\ (Forall nan_free (k_h k) ->
      Js.Math_max (k_h k) ∈ k_h k
      /\ Forall (fun y => PrimFloat.leb y (Js.Math_max (k_h k)) = true) (k_h k))
  /\ (Forall nan_free (k_l k) ->
      Js.Math_min (k_l k) ∈ k_l k
      /\ Forall (fun y => PrimFloat.leb (Js.Math_min (k_l k)) y = true) (k_l k)).
Proof.
  intros Hs Ht Hcall Hok Hc Lt Lo Lh Ll Lv.
  assert (Hh : k_h k <> []) by (intros E; rewrite E in Lh; discriminate).
  assert (Hl : k_l k <> []) by (intros E; rewrite E in Ll; discriminate).
  split; [|split; [|split; [now apply MathFacts.Math_max_spec
                            | now apply MathFacts.Math_min_spec]]].
  - unfold stock_candles, handler_body, try_catch, bind, lift, Date_now.
    fold (tick w).
    rewrite (HandlerFacts.getKey_ok env key _ Hs Ht), Hcall.
    unfold render_candles. rewrite Hok, Hc. cbv zeta.
    change (negb (String.eqb "ok" "ok")) with false. cbv iota.
    rewrite (CandleFacts.candle_points_at k (first :: rest) Lt Lo Lh Ll Lv)
      by lia.
    rewrite (CandleFacts.last_points k (first :: rest)) by lia.
    rewrite Lv, <- app_assoc. reflexivity.
  - unfold series. rewrite length_drop, length_map, length_seq. lia.
Qed.

Lemma candles_report_statistics_witness :
  let env := still (Success (PCandles week)) in
  let a := {| ca_symbol := "aapl"; ca_resolution := None; ca_days := None |} in
  let c := [100; 101; 99; 102; 104; 103; 106]%float in
  (k_s week = "ok" /\ k_c week = Some c
   /\ length (k_t week) = length c /\ length (k_o week) = length c
   /\ length (k_h week) = length c /\ length (k_l week) = length c
   /\ length (k_v week) = length c)
  /\ fst (@stock_candles plain env a fresh)
     = Return (ok (Js.join nl
         (@candles_report plain "AAPL" "D" 30 7 106 100 6 107 98 1200
          ++ [ ""; "Last 5 data points:" ]
          ++ map (@candle_line plain) (drop 2 (series week c)))))
  /\ Js.Math_max (k_h week) ∈ k_h week
  /\ Js.Math_min (k_l week) ∈ k_l week.
Proof.
  cbv zeta.
  assert (Nh : Forall nan_free (k_h week)) by repeat constructor.
  assert (Nl : Forall nan_free (k_l week)) by repeat constructor.
  split; [repeat split; reflexivity|].
  destruct (@candles_report_statistics plain (still (Success (PCandles week)))
              {| ca_symbol := "aapl"; ca_resolution := None; ca_days := None |}
              "token" fresh
              (snd (finnhub (still (Success (PCandles week))) "/stock/candle" "token"
                      (@candles_query plain "AAPL" "D" 30 0) (tick fresh)))
              week 100%float [101; 99; 102; 104; 103; 106]%float
              eq_refl eq_refl eq_refl eq_refl eq_refl eq_refl eq_refl eq_refl
              eq_refl eq_refl)
    as (Hrun & _ & Hmax & Hmin).
  split; [|split; [apply (Hmax Nh) | apply (Hmin Nl)]].
  rewrite Hrun. reflexivity.
Defined.

(** * Further properties *)

(** ** One call of [finnhub] *)

Module CallFacts.

Lemma lookup_miss_expired (env : Env) (key : string) (w : World) (e : CacheEntry) :
  cache w !! key = Some e -> expiry e < clock env (ticks w) ->
  lookup env key w = (PNull, with_cache (delete key (cache w)) (tick w)).
Proof.
  intros He Hexp. unfold lookup, live. rewrite He.
  replace (clock env (ticks w) >? expiry e) with true; [reflexivity|].
  symmetry. apply Z.gtb_lt. exact Hexp.
Qed.

Lemma app_one_ne {A} (l : list A) (x : A) : l ++ [x] <> l.
Proof.
  intros E. apply (f_equal length) in E. rewrite length_app in E. simpl in E. lia.
Qed.

End CallFacts.

(** X1.  A call of [finnhub] never retries: it sends no request when its
    lookup answers a truthy payload, and exactly one request, the one for
    its path, key and parameters, otherwise, whether that request succeeds
    or fails. *)
Theorem finnhub_sends_at_most_once (env : Env) (path apiKey : string)
    (params : Js.Record_string) (w : World) :
  (truthy (fst (lookup env (cacheKey path params) w)) = true
   /\ requests (snd (finnhub env path apiKey params w)) = requests w)
  \/ (truthy (fst (lookup env (cacheKey path params) w)) = false
      /\ requests (snd (finnhub env path apiKey params w))
         = requests w ++ [request_url path apiKey params]).
Proof.
  rewrite CacheFacts.finnhub_eq. cbv zeta.
  pose proof (TraceFacts.lookup_requests env (cacheKey path params) w) as Hreq.
  destruct (lookup env (cacheKey path params) w) as [cached w0]. simpl in *.
  destruct (truthy cached); [left; auto|right].
  split; [reflexivity|].
  destruct (respond env _ _); simpl; now rewrite Hreq.
Qed.

(** X2.  The expiry is an inclusive bound.  With a truthy payload stored
    under its key, a call is answered from the cache, sending nothing,
    exactly when the clock reading of its lookup does not exceed the expiry
    of the entry; at the expiry itself the entry is still served. *)
Theorem served_until_expiry (env : Env) (path apiKey : string)
    (params : Js.Record_string) (w : World) (e : CacheEntry) :
  cache w !! cacheKey path params = Some e ->
  truthy (data e) = true ->
  (requests (snd (finnhub env path apiKey params w)) = requests w
   <-> clock env (ticks w) <= expiry e)
  /\ (clock env (ticks w) <= expiry e ->
      finnhub env path apiKey params w = (Return (data e), tick w)).
Proof.
  intros He Ht.
  assert (Hhit : clock env (ticks w) <= expiry e ->
                 finnhub env path apiKey params w = (Return (data e), tick w)).
  { intros Hle. apply CacheFacts.finnhub_hit; auto.
    unfold live. apply negb_true_iff.
    destruct (clock env (ticks w) >? expiry e) eqn:E; [|reflexivity].
    apply Z.gtb_lt in E. lia. }
  split; [|exact Hhit]. split.
  - intros Hreq.
    destruct (Z_le_gt_dec (clock env (ticks w)) (expiry e)) as [Hle|Hgt]; [exact Hle|].
    exfalso. revert Hreq. rewrite CacheFacts.finnhub_eq. cbv zeta.
    rewrite (CallFacts.lookup_miss_expired env _ w e He) by lia. simpl.
    destruct (respond env _ _); simpl; apply CallFacts.app_one_ne.
  - intros Hle. now rewrite (Hhit Hle).
Qed.

Lemma served_until_expiry_witness :
  let env := still (Success (PPeers ["MSFT"])) in
  let w := {| cache := {[ cacheKey "/stock/peers" [("symbol", "AAPL")]
                          := {| data := PPeers ["GOOGL"]; expiry := 0 |} ]};
              ticks := 0; requests := [] |} in
  (requests (snd (finnhub env "/stock/peers" "token" [("symbol", "AAPL")] w))
   = requests w
   <-> clock env (ticks w) <= 0)
  /\ (clock env (ticks w) <= 0 ->
      finnhub env "/stock/peers" "token" [("symbol", "AAPL")] w
      = (Return (PPeers ["GOOGL"]), tick w)).
Proof.
  cbv zeta.
  apply (served_until_expiry (still (Success (PPeers ["MSFT"]))) "/stock/peers"
           "token" [("symbol", "AAPL")] _ {| data := PPeers ["GOOGL"]; expiry := 0 |});
    reflexivity.
Defined.

(** X3.  Once the clock has passed the expiry of the entry, a call whose
    request succeeds returns the new payload, not the stored one, having
    sent exactly one request, and leaves under the key the new payload with
    an expiry [CACHE_TTL_MS] after the clock reading taken at the store. *)
Theorem refetched_after_expiry (env : Env) (path apiKey : string)
    (params : Js.Record_string) (w : World) (e : CacheEntry) (d : Payload) :
  cache w !! cacheKey path params = Some e ->
  expiry e < clock env (ticks w) ->
  respond env (length (requests w)) (request_url path apiKey params) = Success d ->
  finnhub env path apiKey params w
  = (Return d,
     {| cache := <[cacheKey path params :=
                    {| data := d;
                       expiry := clock env (S (ticks w)) + CACHE_TTL_MS |}]>
                   (cache w);
        ticks := S (S (ticks w));
        requests := requests w ++ [request_url path apiKey params] |}).
Proof.
  intros He Hexp Hr. rewrite CacheFacts.finnhub_eq. cbv zeta.
  rewrite (CallFacts.lookup_miss_expired env _ w e He Hexp). simpl.
  rewrite Hr. unfold with_cache, tick, sent. simpl.
  now rewrite insert_delete_eq.
Qed.

Lemma refetched_after_expiry_witness :
  let env := still (Success (PPeers ["MSFT"])) in
  let key := cacheKey "/quote" [("symbol", "AAPL")] in
  cache stale !! key = Some {| data := PPeers []; expiry := -1 |}
  /\ -1 < clock env (ticks stale)
  /\ finnhub env "/quote" "token" [("symbol", "AAPL")] stale
     = (Return (PPeers ["MSFT"]),
        {| cache := <[key := {| data := PPeers ["MSFT"];
                                expiry := clock env (S (ticks stale)) + CACHE_TTL_MS |}]>
                      (cache stale);
           ticks := S (S (ticks stale));
           requests := requests stale
                       ++ [request_url "/quote" "token" [("symbol", "AAPL")]] |}).
Proof.
  cbv zeta. split; [reflexivity|]. split; [reflexivity|].
  apply (refetched_after_expiry (still (Success (PPeers ["MSFT"]))) "/quote" "token"
           [("symbol", "AAPL")] stale {| data := PPeers []; expiry := -1 |});
    reflexivity.
Defined.

(** X4.  No stale data on error: once the clock has passed the expiry of
    the entry, a call whose request fails throws, and the expired entry is
    gone from the store. *)
Theorem no_stale_answer_on_failure (env : Env) (path apiKey : string)
    (params : Js.Record_string) (w : World) (e : CacheEntry) :
  cache w !! cacheKey path params = Some e ->
  expiry e < clock env (ticks w) ->
  failed (respond env (length (requests w)) (request_url path apiKey params)) = true ->
  exists message,
    finnhub env path apiKey params w
    = (Throw message,
       {| cache := delete (cacheKey path params) (cache w);
          ticks := S (ticks w);
          requests := requests w ++ [request_url path apiKey params] |}).
Proof.
  intros He Hexp Hf. rewrite CacheFacts.finnhub_eq. cbv zeta.
  rewrite (CallFacts.lookup_miss_expired env _ w e He Hexp). simpl.
  destruct (respond env _ _); try discriminate; eauto.
Qed.

Lemma no_stale_answer_on_failure_witness :
  let env := still (HttpError 503 "unavailable") in
  let key := cacheKey "/quote" [("symbol", "AAPL")] in
  cache stale !! key = Some {| data := PPeers []; expiry := -1 |}
  /\ -1 < clock env (ticks stale)
  /\ exists message,
       finnhub env "/quote" "token" [("symbol", "AAPL")] stale
       = (Throw message,
          {| cache := delete key (cache stale);
             ticks := S (ticks stale);
             requests := requests stale
                         ++ [request_url "/quote" "token" [("symbol", "AAPL")]] |}).
Proof.
  cbv zeta. split; [reflexivity|]. split; [reflexivity|].
  apply (no_stale_answer_on_failure (still (HttpError 503 "unavailable")) "/quote"
           "token" [("symbol", "AAPL")] stale {| data := PPeers []; expiry := -1 |});
    reflexivity.
Defined.

(** X5.  A call reads and writes the store under its own key only: the
    entry of every other key is after the call what it was before. *)
Theorem other_keys_untouched (env : Env) (path apiKey : string)
    (params : Js.Record_string) (w : World) (k : string) :
  k = cacheKey path params
  \/ cache (snd (finnhub env path apiKey params w)) !! k = cache w !! k.
Proof.
  destruct (decide (k = cacheKey path params)) as [Hk|Hk]; [now left|right].
  rewrite CacheFacts.finnhub_eq. cbv zeta.
  assert (H0 : cache (snd (lookup env (cacheKey path params) w)) !! k = cache w !! k).
  { unfold lookup. destruct (cache w !! cacheKey path params) as [e|]; [|reflexivity].
    destruct (live _ e); simpl; [reflexivity|]. now apply lookup_delete_ne. }
  destruct (lookup env (cacheKey path params) w) as [cached w0]. simpl in H0.
  destruct (truthy cached); [exact H0|].
  destruct (respond env _ _); simpl; try exact H0.
  rewrite lookup_insert_ne by congruence. exact H0.
Qed.

(** X6.  [deactivate] empties the store and nothing else: whatever was
    cached, the next call of [finnhub] goes upstream. *)
Theorem deactivate_forgets (env : Env) (path apiKey : string)
    (params : Js.Record_string) (w : World) :
  deactivate w = (Return tt, with_cache ∅ w)
  /\ requests (snd (finnhub env path apiKey params (snd (deactivate w))))
     = requests w ++ [request_url path apiKey params].
Proof.
  split; [reflexivity|].
  rewrite CacheFacts.finnhub_eq. cbv zeta. unfold lookup. simpl.
  rewrite lookup_empty. simpl.
  destruct (respond env _ _); reflexivity.
Qed.

(** ** The request *)

Module UrlFacts.
  Import Js.








End UrlFacts.



(** ** What the handlers send and return *)

Module EffectFacts.

Lemma sends_mono {A} (n n' : nat) (m : M A) :
  (n <= n')%nat -> sends n m -> sends n' m.
Proof.
  intros Hle Hm w. destruct (Hm w) as (l & Hl & Hn). exists l. split; [exact Hl | lia].
Qed.

Lemma sends_ret {A} (a : A) : sends 0 (ret a).
Proof. intros w. exists []. simpl. now rewrite app_nil_r. Qed.

Lemma sends_throw {A} (e : string) : sends 0 (throw (A := A) e).
Proof. intros w. exists []. simpl. now rewrite app_nil_r. Qed.

Lemma sends_lift {A} (o : Outcome A) : sends 0 (lift o).
Proof. intros w. exists []. simpl. now rewrite app_nil_r. Qed.

Lemma sends_bind {A B} (n k : nat) (m : M A) (f : A -> M B) :
  sends n m -> (forall a, sends k (f a)) -> sends (n + k) (bind m f).
Proof.
  intros Hm Hf w. unfold bind. destruct (Hm w) as (l1 & Hl1 & Hn1).
  destruct (m w) as [[a|e] w1]; simpl in *.
  - destruct (Hf a w1) as (l2 & Hl2 & Hn2). exists (l1 ++ l2).
    rewrite Hl2, Hl1, <- app_assoc, length_app. split; [reflexivity | lia].
  - exists l1. split; [exact Hl1 | lia].
Qed.

Lemma sends_try_catch {A} (n k : nat) (m : M A) (h : string -> M A) :
  sends n m -> (forall e, sends k (h e)) -> sends (n + k) (try_catch m h).
Proof.
  intros Hm Hh w. unfold try_catch. destruct (Hm w) as (l1 & Hl1 & Hn1).
  destruct (m w) as [[a|e] w1]; simpl in *.
  - exists l1. split; [exact Hl1 | lia].
  - destruct (Hh e w1) as (l2 & Hl2 & Hn2). exists (l1 ++ l2).
    rewrite Hl2, Hl1, <- app_assoc, length_app. split; [reflexivity | lia].
Qed.

Lemma sends_handler_body (n : nat) (m : M ToolResult) :
  sends n m -> sends n (handler_body m).
Proof.
  intros Hm. apply (sends_mono (n + 0)); [lia|].
  apply sends_try_catch; [exact Hm | intros e; apply sends_ret].
Qed.

Lemma sends_attempt {A} (n : nat) (m : M A) (a : A) :
  sends n m -> sends n (attempt m a).
Proof.
  intros Hm. apply (sends_mono (n + 0)); [lia|].
  apply sends_try_catch; [exact Hm | intros e; apply sends_ret].
Qed.

Lemma sends_getKey (env : Env) : sends 0 (getKey env).
Proof.
  intros w. destruct (HandlerFacts.getKey_cases env w) as [[key ->] | ->];
    exists []; simpl; now rewrite app_nil_r.
Qed.

Lemma sends_Date_now (env : Env) : sends 0 (Date_now env).
Proof. intros w. exists []. simpl. now rewrite app_nil_r. Qed.

Lemma sends_finnhub_begin (env : Env) (path apiKey : string)
    (params : Js.Record_string) :
  sends 1 (finnhub_begin env path apiKey params).
Proof.
  intros w. rewrite CacheFacts.finnhub_begin_eq. cbv zeta.
  pose proof (TraceFacts.lookup_requests env (cacheKey path params) w) as Hreq.
  destruct (lookup env (cacheKey path params) w) as [cached w0]. simpl in Hreq.
  destruct (truthy cached); simpl.
  - exists []. rewrite app_nil_r. auto.
  - exists [request_url path apiKey params]. rewrite Hreq. auto.
Qed.

Lemma sends_finnhub_settle (env : Env) (p : Pending) :
  sends 0 (finnhub_settle env p).
Proof.
  intros w. exists []. rewrite app_nil_r. split; [|reflexivity].
  destruct p as [cached|key n u]; simpl; [reflexivity|].
  destruct (respond env n u); reflexivity.
Qed.

Lemma sends_finnhub (env : Env) (path apiKey : string) (params : Js.Record_string) :
  sends 1 (finnhub env path apiKey params).
Proof.
  apply (sends_bind 1 0); [apply sends_finnhub_begin|].
  intros p. apply sends_finnhub_settle.
Qed.

Section Batch.
  Context {X : Type} (begin : X -> M Task) (resume : X -> Pending -> M string).
  Hypothesis begin_sends : forall x, sends 1 (begin x).
  Hypothesis resume_sends : forall x p, sends 0 (resume x p).

Lemma sends_begin_all (xs : list X) : sends (length xs) (begin_all begin xs).
Proof.
  induction xs as [|x xs IH]; simpl; [apply sends_ret|].
  apply (sends_bind 1 (length xs)); [apply begin_sends|]. intros t.
  apply (sends_mono (length xs + 0)); [lia|].
  apply sends_bind; [exact IH | intros ts; apply sends_ret].
Qed.

Lemma sends_resume_at (xs : list X) (i : nat) (ts : list Task) :
  sends 0 (resume_at resume xs i ts).
Proof.
  unfold resume_at.
  destruct (xs !! i) as [x|]; [|apply sends_ret].
  destruct (ts !! i) as [[line|p]|]; try apply sends_ret.
  apply (sends_bind 0 0); [apply resume_sends | intros line; apply sends_ret].
Qed.

Lemma sends_resume_in_order (xs : list X) (order : list nat) (ts : list Task) :
  sends 0 (resume_in_order resume xs order ts).
Proof.
  revert ts; induction order as [|i order IH]; intros ts; simpl; [apply sends_ret|].
  apply (sends_bind 0 0); [apply sends_resume_at | intros ts'; apply IH].
Qed.

Lemma sends_resume_rest (xs : list X) (ts : list Task) :
  sends 0 (resume_rest resume xs ts).
Proof.
  revert ts; induction xs as [|x xs IH]; intros [|t ts]; simpl; try apply sends_ret.
  apply (sends_bind 0 0).
  - destruct t as [line|p]; [apply sends_ret | apply resume_sends].
  - intros line. apply (sends_bind 0 0); [apply IH | intros lines; apply sends_ret].
Qed.

Lemma sends_resumptions (xs : list X) (order : list nat) (ts : list Task) :
  sends 0 (do ts' <- resume_in_order resume xs order ts; resume_rest resume xs ts').
Proof.
  apply (sends_bind 0 0); [apply sends_resume_in_order|].
  intros ts'. apply sends_resume_rest.
Qed.

Lemma sends_Promise_all (xs : list X) (order : list nat) :
  sends (length xs) (Promise_all begin resume order xs).
Proof.
  unfold Promise_all. apply (sends_mono (length xs + 0)); [lia|].
  apply sends_bind; [apply sends_begin_all|].
  intros ts. apply sends_resumptions.
Qed.

End Batch.

Lemma sends_quotes_begin (env : Env) (x : string) : sends 1 (quotes_begin env x).
Proof.
  apply sends_attempt. apply (sends_bind 0 1); [apply sends_getKey|]. intros key.
  apply (sends_mono (1 + 0)); [lia|].
  apply sends_bind; [apply sends_finnhub_begin | intros p; apply sends_ret].
Qed.

Lemma sends_peers_begin (env : Env) (x : string) : sends 1 (peers_begin env x).
Proof.
  apply sends_attempt. apply (sends_bind 0 1); [apply sends_getKey|]. intros key.
  apply (sends_mono (1 + 0)); [lia|].
  apply sends_bind; [apply sends_finnhub_begin | intros p; apply sends_ret].
Qed.

Lemma sends_quotes_resume `{Builtins} (env : Env) (x : string) (p : Pending) :
  sends 0 (quotes_resume env x p).
Proof.
  apply sends_attempt.
  apply (sends_bind 0 0); [apply sends_finnhub_settle | intros q; apply sends_lift].
Qed.

Lemma sends_peers_resume `{Builtins} (env : Env) (x : string) (p : Pending) :
  sends 0 (peers_resume env x p).
Proof.
  apply sends_attempt.
  apply (sends_bind 0 0); [apply sends_finnhub_settle | intros q; apply sends_lift].
Qed.

  (** A handler that asks for its key, calls [finnhub] once and goes on
      without sending. *)
Lemma sends_one_call {B} (env : Env) (path : string)
    (params : Js.Record_string) (k : Payload -> M B) :
  (forall p, sends 0 (k p)) ->
  sends 1 (do key <- getKey env; do x <- finnhub env path key params; k x).
Proof.
  intros Hk. apply (sends_bind 0 1); [apply sends_getKey|]. intros key.
  apply (sends_mono (1 + 0)); [lia|].
  apply sends_bind; [apply sends_finnhub | exact Hk].
Qed.

Lemma length_topPeers (symbol : string) (peers : list string) :
  (length (topPeers symbol peers) <= 8)%nat.
Proof. unfold topPeers. rewrite length_take. lia. Qed.

Lemma returns_try_catch {A} (m : M A) (h : string -> M A) :
  (forall e, returns (h e)) -> returns (try_catch m h).
Proof.
  intros Hh w. unfold try_catch. destruct (m w) as [[a|e] w1]; [eauto | apply Hh].
Qed.

Lemma returns_ret {A} (a : A) : returns (ret a).
Proof. intros w. unfold ret. eauto. Qed.

End EffectFacts.

(** X8.  The handlers respect the budget of requests: the tools that make
    one call and the two routes send at most one request; [stock_quotes]
    sends at most one request per symbol; [stock_peers] sends at most nine,
    one for the peers and one for each of at most eight of them.  None of
    them ever removes or rewrites a request already sent. *)
Theorem handlers_request_budget `{Builtins} (env : Env) :
  (forall s, sends 1 (stock_quote env s))
  /\ (forall order symbols, sends (length symbols) (stock_quotes env order symbols))
  /\ (forall q, sends 1 (stock_search env q))
  /\ (forall s, sends 1 (stock_company_profile env s))
  /\ (forall a, sends 1 (stock_candles env a))
  /\ (forall a, sends 1 (stock_news env a))
  /\ (forall order s, sends 9 (stock_peers env order s))
  /\ (forall s, sends 1 (stock_metrics env s))
  /\ (forall s, sends 1 (route_quote env s))
  /\ (forall q, sends 1 (route_search env q)).
Proof.
  repeat split; intros.
  - apply EffectFacts.sends_handler_body. cbv zeta.
    apply EffectFacts.sends_one_call. intros p. apply EffectFacts.sends_lift.
  - apply EffectFacts.sends_handler_body. cbv zeta.
    apply (EffectFacts.sends_mono (length (map toUpperCase symbols) + 0));
      [rewrite length_map; lia|].
    apply EffectFacts.sends_bind.
    + apply EffectFacts.sends_Promise_all;
        [apply EffectFacts.sends_quotes_begin | apply EffectFacts.sends_quotes_resume].
    + intros r. apply EffectFacts.sends_ret.
  - apply EffectFacts.sends_handler_body. cbv zeta.
    apply EffectFacts.sends_one_call. intros p. apply EffectFacts.sends_lift.
  - apply EffectFacts.sends_handler_body. cbv zeta.
    apply EffectFacts.sends_one_call. intros p. apply EffectFacts.sends_lift.
  - apply EffectFacts.sends_handler_body. cbv zeta.
    apply (EffectFacts.sends_bind 0 1); [apply EffectFacts.sends_Date_now|].
    intros now. apply EffectFacts.sends_one_call. intros p. apply EffectFacts.sends_lift.
  - apply EffectFacts.sends_handler_body. cbv zeta.
    apply (EffectFacts.sends_mono (1 + 0)); [lia|].
    apply EffectFacts.sends_bind; [|intros p; apply EffectFacts.sends_lift].
    unfold if_symbol.
    assert (Hgeneral : sends 1 (do key <- getKey env;
                                finnhub env "/news" key [("category", "general")])).
    { apply (EffectFacts.sends_bind 0 1); [apply EffectFacts.sends_getKey|].
      intros key. apply EffectFacts.sends_finnhub. }
    destruct (news_symbol (na_symbol a)) as [s|]; [|exact Hgeneral].
    destruct (Js.truthy_string s); [|exact Hgeneral].
    apply (EffectFacts.sends_bind 0 1); [apply EffectFacts.sends_Date_now|]. intros now.
    apply (EffectFacts.sends_bind 0 1); [apply EffectFacts.sends_Date_now|]. intros now'.
    apply (EffectFacts.sends_bind 0 1); [apply EffectFacts.sends_getKey|].
    intros key. apply EffectFacts.sends_finnhub.
  - apply EffectFacts.sends_handler_body. cbv zeta.
    apply (EffectFacts.sends_bind 0 9); [apply EffectFacts.sends_getKey|]. intros key.
    apply (EffectFacts.sends_bind 1 8); [apply EffectFacts.sends_finnhub|].
    intros [| ? | ? | ? | ? | [|a l] | [|p ps] | ?].
    1-8, 10: apply (EffectFacts.sends_mono 0 8); [lia|];
      (apply EffectFacts.sends_ret || apply EffectFacts.sends_throw).
    apply (EffectFacts.sends_mono
             (length (topPeers (toUpperCase s) (p :: ps)) + 0));
      [pose proof (EffectFacts.length_topPeers (toUpperCase s) (p :: ps)); lia|].
    apply EffectFacts.sends_bind.
    + apply EffectFacts.sends_Promise_all;
        [apply EffectFacts.sends_peers_begin | apply EffectFacts.sends_peers_resume].
    + intros r. apply EffectFacts.sends_ret.
  - apply EffectFacts.sends_handler_body. cbv zeta.
    apply EffectFacts.sends_one_call. intros p. apply EffectFacts.sends_lift.
  - apply (EffectFacts.sends_mono (1 + 0)); [lia|].
    apply EffectFacts.sends_try_catch; [|intros e; apply EffectFacts.sends_ret].
    apply EffectFacts.sends_one_call. intros p. apply EffectFacts.sends_ret.
  - apply (EffectFacts.sends_mono (1 + 0)); [lia|].
    apply EffectFacts.sends_try_catch; [|intros e; apply EffectFacts.sends_ret].
    apply EffectFacts.sends_one_call. intros p. apply EffectFacts.sends_ret.
Qed.

(** X9.  No handler throws: each of the eight tools returns a tool result
    and each of the two routes a JSON object, whatever the arguments, the
    setting, the store and the answers of the upstream. *)
Theorem handlers_never_throw `{Builtins} (env : Env) :
  (forall s, returns (stock_quote env s))
  /\ (forall order symbols, returns (stock_quotes env order symbols))
  /\ (forall q, returns (stock_search env q))
  /\ (forall s, returns (stock_company_profile env s))
  /\ (forall a, returns (stock_candles env a))
  /\ (forall a, returns (stock_news env a))
  /\ (forall order s, returns (stock_peers env order s))
  /\ (forall s, returns (stock_metrics env s))
  /\ (forall s, returns (route_quote env s))
  /\ (forall q, returns (route_search env q)).
Proof.
  repeat split; intros;
    apply EffectFacts.returns_try_catch; intros e; apply EffectFacts.returns_ret.
Qed.

(** ** Failures of the upstream *)

Module FailureFacts.

Lemma via_finnhub_throw (env : Env) (key path : string) (params : Js.Record_string)
    (render : Payload -> Outcome ToolResult) (w w1 : World) (message : string) :
  getSetting env "finnhubApiKey" = Some key -> Js.truthy_string key = true ->
  finnhub env path key params w = (Throw message, w1) ->
  handler_body
    (do key <- getKey env;
     do x <- finnhub env path key params;
     lift (render x)) w
  = (Return (err message), w1).
Proof.
  intros Hs Ht Hcall. unfold handler_body, try_catch, bind.
  now rewrite (HandlerFacts.getKey_ok env key w Hs Ht), Hcall.
Qed.

End FailureFacts.

(** X10.  With the key configured, a call of [finnhub] that throws makes
    the handler return an error whose text is the message thrown, and the
    route an object whose [error] is that message; the world is the one the
    call left.  The message of a response with a non-success status on a
    miss is "Finnhub ", the status, ": " and the body. *)
Theorem upstream_failure_is_reported `{Builtins} (env : Env) (key : string)
    (w : World) :
  getSetting env "finnhubApiKey" = Some key -> Js.truthy_string key = true ->
  (forall s message w1,
     finnhub env "/quote" key [("symbol", toUpperCase s)] w = (Throw message, w1) ->
     stock_quote env s w = (Return (err message), w1)
     /\ route_quote env s w = (Return (ErrorJson message), w1))
  /\ (forall q message w1,
        finnhub env "/search" key [("q", q)] w = (Throw message, w1) ->
        stock_search env q w = (Return (err message), w1)
        /\ route_search env q w = (Return (ErrorJson message), w1))
  /\ (forall s message w1,
        finnhub env "/stock/profile2" key [("symbol", toUpperCase s)] w
        = (Throw message, w1) ->
        stock_company_profile env s w = (Return (err message), w1))
  /\ (forall s message w1,
        finnhub env "/stock/metric" key [("symbol", toUpperCase s); ("metric", "all")] w
        = (Throw message, w1) ->
        stock_metrics env s w = (Return (err message), w1))
  /\ (forall order s message w1,
        finnhub env "/stock/peers" key
          [("symbol", toUpperCase s); ("grouping", "industry")] w
        = (Throw message, w1) ->
        stock_peers env order s w = (Return (err message), w1))
  /\ (forall a message w1,
        finnhub env "/stock/candle" key
          (candles_query (toUpperCase (ca_symbol a))
             (Js.or_string (ca_resolution a) "D") (candles_days (ca_days a))
             (clock env (ticks w)))
          (tick w)
        = (Throw message, w1) ->
        stock_candles env a w = (Return (err message), w1))
  /\ (forall a message w1,
        news_symbol (na_symbol a) = None ->
        finnhub env "/news" key [("category", "general")] w = (Throw message, w1) ->
        stock_news env a w = (Return (err message), w1))
  /\ (forall path apiKey params status body,
        truthy (fst (lookup env (cacheKey path params) w)) = false ->
        respond env (length (requests w)) (request_url path apiKey params)
        = HttpError status body ->
        fst (finnhub env path apiKey params w)
        = Throw ("Finnhub " +:+ pretty status +:+ ": " +:+ body)).
Proof.
  intros Hs Ht.
  pose proof (fun w => HandlerFacts.getKey_ok env key w Hs Ht) as Hk.
  repeat split.
  - unfold stock_quote. cbv zeta.
    now apply (FailureFacts.via_finnhub_throw env key).
  - unfold route_quote, try_catch, bind. now rewrite Hk, H0.
  - unfold stock_search. cbv zeta.
    now apply (FailureFacts.via_finnhub_throw env key).
  - unfold route_search, try_catch, bind. now rewrite Hk, H0.
  - intros s message w1 Hcall. unfold stock_company_profile. cbv zeta.
    now apply (FailureFacts.via_finnhub_throw env key).
  - intros s message w1 Hcall. unfold stock_metrics. cbv zeta.
    now apply (FailureFacts.via_finnhub_throw env key).
  - intros order s message w1 Hcall.
    unfold stock_peers, handler_body, try_catch, bind. now rewrite Hk, Hcall.
  - intros a message w1 Hcall.
    unfold stock_candles, handler_body, try_catch, bind, Date_now.
    fold (tick w). now rewrite Hk, Hcall.
  - intros a message w1 Hsym Hcall.
    unfold stock_news, handler_body, try_catch, bind, if_symbol.
    now rewrite Hsym, Hk, Hcall.
  - intros path apiKey params status body Hmiss Hr.
    rewrite CacheFacts.finnhub_eq. cbv zeta.
    pose proof (TraceFacts.lookup_requests env (cacheKey path params) w) as Hreq.
    destruct (lookup env (cacheKey path params) w) as [cached w0]. simpl in *.
    now rewrite Hmiss, Hreq, Hr.
Qed.

Lemma upstream_failure_is_reported_witness :
  let env := still (HttpError 429 "API limit reached") in
  (getSetting env "finnhubApiKey" = Some "token" /\ Js.truthy_string "token" = true)
  /\ @stock_quote plain env "aapl" fresh
     = (Return (err "Finnhub 429: API limit reached"),
        snd (finnhub env "/quote" "token" [("symbol", "AAPL")] fresh))
  /\ @route_quote plain env "aapl" fresh
     = (Return (ErrorJson "Finnhub 429: API limit reached"),
        snd (finnhub env "/quote" "token" [("symbol", "AAPL")] fresh)).
Proof.
  cbv zeta. split; [split; reflexivity|].
  apply (proj1 (@upstream_failure_is_reported plain
                  (still (HttpError 429 "API limit reached")) "token" fresh
                  eq_refl eq_refl) "aapl"); reflexivity.
Defined.

(** ** Batches on a cold cache *)

Module ColdFacts.

Lemma quotes_begin_all_cold (env : Env) (key : string) (xs : list string) (w : World) :
  getSetting env "finnhubApiKey" = Some key -> Js.truthy_string key = true ->
  cache w = ∅ ->
  exists ts w',
    begin_all (quotes_begin env) xs w = (Return ts, w')
    /\ cache w' = ∅
    /\ requests w'
       = requests w ++ map (fun x => request_url "/quote" key [("symbol", x)]) xs.
Proof.
  intros Hs Ht. revert w; induction xs as [|x xs IH]; intros w Hc; simpl.
  - exists [], w. rewrite app_nil_r. auto.
  - unfold bind at 1.
    assert (Hb : quotes_begin env x w
                 = (Return (Suspended
                      (Waiting (cacheKey "/quote" [("symbol", x)])
                         (length (requests w))
                         (request_url "/quote" key [("symbol", x)]))),
                    sent (request_url "/quote" key [("symbol", x)]) w)).
    { unfold quotes_begin, attempt, try_catch, bind.
      rewrite (HandlerFacts.getKey_ok env key w Hs Ht).
      rewrite CacheFacts.finnhub_begin_eq. cbv zeta. unfold lookup.
      rewrite Hc, lookup_empty. reflexivity. }
    rewrite Hb.
    destruct (IH (sent (request_url "/quote" key [("symbol", x)]) w) Hc)
      as (ts & w' & Hall & Hc' & Hreq).
    unfold bind. rewrite Hall. eexists _, w'. split; [reflexivity|].
    split; [exact Hc'|]. rewrite Hreq. simpl. now rewrite <- app_assoc.
Qed.

End ColdFacts.

(** X11.  On an empty store and with the key configured, [stock_quotes]
    sends exactly one request per symbol, in the order of the input and for
    the upper-cased symbol, a symbol that occurs twice being requested
    twice: calls in flight are not shared.  The completion order of the
    fetches has no say in what is sent. *)
Theorem cold_batch_requests `{Builtins} (env : Env) (key : string) (w : World)
    (order : list nat) (symbols : list string) :
  getSetting env "finnhubApiKey" = Some key -> Js.truthy_string key = true ->
  cache w = ∅ ->
  requests (snd (stock_quotes env order symbols w))
  = requests w
    ++ map (fun s => request_url "/quote" key [("symbol", toUpperCase s)]) symbols.
Proof.
  intros Hs Ht Hc.
  destruct (ColdFacts.quotes_begin_all_cold env key (map toUpperCase symbols) w
              Hs Ht Hc) as (ts & w' & Hall & _ & Hreq).
  rewrite map_map in Hreq. rewrite <- Hreq.
  unfold stock_quotes, handler_body, try_catch, Promise_all. cbv zeta.
  unfold bind at 1 2. rewrite Hall.
  destruct (EffectFacts.sends_resumptions (quotes_resume env)
              (EffectFacts.sends_quotes_resume env)
              (map toUpperCase symbols) order ts w') as (l & Hl & Hn).
  destruct l; [|simpl in Hn; lia]. rewrite app_nil_r in Hl.
  destruct (bind (resume_in_order _ _ _ _) _ w') as [[lines|e] w2];
    simpl in *; exact Hl.
Qed.

Lemma cold_batch_requests_witness :
  let env := still (Success (PQuote a_quote)) in
  (getSetting env "finnhubApiKey" = Some "token" /\ Js.truthy_string "token" = true
   /\ cache fresh = ∅)
  /\ requests (snd (@stock_quotes plain env [1%nat; 0%nat] ["aapl"; "msft"; "aapl"] fresh))
     = requests fresh
       ++ map (fun s => request_url "/quote" "token" [("symbol", @toUpperCase plain s)])
            ["aapl"; "msft"; "aapl"].
Proof.
  cbv zeta. split; [repeat split; reflexivity|].
  apply (@cold_batch_requests plain (still (Success (PQuote a_quote))) "token" fresh);
    reflexivity.
Defined.

(** ** Peers *)

Module PeerFacts.

Lemma filter_sublist {A} (f : A -> bool) (l : list A) :
  (List.filter f l) `sublist_of` l.
Proof.
  induction l as [|x l IH]; simpl; [constructor|].
  destruct (f x); [now apply sublist_skip | now apply sublist_cons].
Qed.

End PeerFacts.

(** X12.  The peers [stock_peers] asks quotes for are at most eight, never
    include the symbol itself, and are peers of the answer in the order of
    the answer. *)
Theorem topPeers_bounds (symbol : string) (peers : list string) :
  (length (topPeers symbol peers) <= 8)%nat
  /\ (symbol ∉ topPeers symbol peers)
  /\ (topPeers symbol peers) `sublist_of` peers.
Proof.
  split; [apply EffectFacts.length_topPeers|]. split.
  - unfold topPeers. intros Hin.
    apply elem_of_take in Hin as (i & Hi & _). apply list_elem_of_lookup_2 in Hi.
    apply list_elem_of_In, filter_In in Hi as [_ Hne].
    apply negb_true_iff, String.eqb_neq in Hne. congruence.
  - unfold topPeers. etransitivity; [apply sublist_take|].
    apply PeerFacts.filter_sublist.
Qed.

(** ** Search *)

Module SearchFacts.

Lemma falsy_string (t : string) :
  negb (Js.truthy_string t) = true <-> t = EmptyString.
Proof. destruct t; simpl; split; congruence. Qed.

Lemma listable_types (x : SearchItem) :
  listable x = true
  <-> r_type x ∈ ["Common Stock"; "ETP"; "ETF"; "REIT"; "ADR"]
      \/ r_type x = EmptyString.
Proof.
  unfold listable, includes, STOCK_TYPES.
  rewrite orb_true_iff, falsy_string, existsb_exists.
  split; (intros [Hin | He]; [left | now right]).
  - destruct Hin as (y & Hy & He). apply String.eqb_eq in He. subst y.
    now apply list_elem_of_In.
  - exists (r_type x). split; [now apply list_elem_of_In | apply String.eqb_refl].
Qed.

End SearchFacts.

(** X13.  The search tool lists an item exactly when its type is one of
    Common Stock, ETP, ETF, REIT and ADR or is empty.  When the answer
    holds items, it lists at most ten of them, only such items, in the order
    of the answer, one line each under the heading, as a success ([isError]
    false).  When none of the items is of such a type the result is a
    success too: the text says so and gives the first five items as they
    came. *)
Theorem search_lists_ten `{Builtins} (query : string) (r : FinnhubSearchResult)
    (result : list SearchItem) :
  s_result r = Some result -> result <> [] ->
  let chosen := take 10 (List.filter listable result) in
  (forall x, listable x = true
             <-> r_type x ∈ ["Common Stock"; "ETP"; "ETF"; "REIT"; "ADR"]
                 \/ r_type x = EmptyString)
  /\ (length chosen <= 10)%nat
  /\ Forall (fun x => r_type x ∈ ["Common Stock"; "ETP"; "ETF"; "REIT"; "ADR"]
                      \/ r_type x = EmptyString) chosen
  /\ (chosen `sublist_of` result)
  /\ (chosen <> [] ->
      render_search query (PSearch r)
      = Return {| content :=
                    [{| type_ := "text";
                        text := "Search results for " +:+ dq +:+ query +:+ dq +:+ ":"
                                +:+ nl +:+
                                Js.join nl
                                  (map (fun x =>
                                          r_symbol x +:+ " - " +:+ r_description x +:+
                                          (if Js.truthy_string (r_type x)
                                           then " (" +:+ r_type x +:+ ")"
                                           else ""))
                                     chosen) |}];
                  isError := false |})
  /\ (chosen = [] ->
      render_search query (PSearch r)
      = Return {| content :=
                    [{| type_ := "text";
                        text := "Found results but none were common stocks/ETFs. Raw results:"
                                +:+ nl +:+
                                Js.join nl
                                  (map (fun x =>
                                          r_symbol x +:+ " - " +:+ r_description x
                                          +:+ " (" +:+ r_type x +:+ ")")
                                     (take 5 result)) |}];
                  isError := false |}).
Proof.
  intros Hr Hne. cbv zeta. repeat split.
  - apply SearchFacts.listable_types.
  - apply SearchFacts.listable_types.
  - rewrite length_take. lia.
  - apply Forall_forall. intros x Hin. apply SearchFacts.listable_types.
    apply elem_of_take in Hin as (i & Hi & _). apply list_elem_of_lookup_2 in Hi.
    now apply list_elem_of_In, filter_In in Hi as [_ Hl].
  - etransitivity; [apply sublist_take | apply PeerFacts.filter_sublist].
  - intros Hc. unfold render_search. rewrite Hr.
    destruct result as [|x result]; [congruence|].
    change (fun r0 : SearchItem => includes STOCK_TYPES (r_type r0)
                               || negb (Js.truthy_string (r_type r0))) with listable.
    destruct (take 10 (List.filter listable (x :: result))) as [|y ys]; [congruence|].
    reflexivity.
  - intros Hc. unfold render_search. rewrite Hr.
    destruct result as [|x result]; [congruence|].
    change (fun r0 : SearchItem => includes STOCK_TYPES (r_type r0)
                               || negb (Js.truthy_string (r_type r0))) with listable.
    rewrite Hc. reflexivity.
Qed.

Lemma search_lists_ten_witness :
  let apple := {| r_description := "APPLE INC"; r_displaySymbol := "AAPL";
                  r_symbol := "AAPL"; r_type := "Common Stock" |} in
  let fund := {| r_description := "APPLE FUND"; r_displaySymbol := "APLF";
                 r_symbol := "APLF"; r_type := "ETF" |} in
  let token := {| r_description := "APPLE TOKEN"; r_displaySymbol := "APL";
                  r_symbol := "APL"; r_type := "Crypto" |} in
  let result := [apple; token; fund] in
  let r := {| s_count := 3; s_result := Some result |} in
  (s_result r = Some result /\ result <> [])
  /\ take 10 (List.filter listable result) = [apple; fund]
  /\ @render_search plain "apple" (PSearch r)
     = Return {| content :=
                   [{| type_ := "text";
                       text := "Search results for " +:+ dq +:+ "apple" +:+ dq +:+ ":"
                               +:+ nl +:+ "AAPL - APPLE INC (Common Stock)"
                               +:+ nl +:+ "APLF - APPLE FUND (ETF)" |}];
                 isError := false |}.
Proof.
  intros apple fund token result r.
  assert (Hne : result <> []) by discriminate.
  split; [split; [reflexivity | exact Hne]|]. split; [reflexivity|].
  refine (proj1 (proj2 (proj2 (proj2 (proj2
            (@search_lists_ten plain "apple" r result eq_refl Hne))))) _).
  discriminate.
Defined.

(** ** Entry points on one store *)

Module ShareFacts.

  (** A call that returns a truthy payload leaves it under its key. *)
Lemma finnhub_leaves_entry (env : Env) (path apiKey : string)
    (params : Js.Record_string) (w w1 : World) (d : Payload) :
  finnhub env path apiKey params w = (Return d, w1) -> truthy d = true ->
  exists e, cache w1 !! cacheKey path params = Some e /\ data e = d.
Proof.
  intros Hcall Hd. rewrite CacheFacts.finnhub_eq in Hcall. cbv zeta in Hcall.
  destruct (lookup env (cacheKey path params) w) as [cached w0] eqn:Hlk.
  destruct (truthy cached) eqn:Ht.
  - injection Hcall as -> ->.
    destruct (CacheFacts.lookup_truthy env (cacheKey path params) w)
      as (e & He & _ & Heq); [now rewrite Hlk|].
    rewrite Hlk in Heq. injection Heq as -> ->. exists e. auto.
  - destruct (respond env _ _) as [| | |d']; try discriminate.
    injection Hcall as -> <-. eexists. split; [apply lookup_insert_eq | reflexivity].
Qed.

Lemma live_le (now : Z) (e : CacheEntry) : now <= expiry e -> live now e = true.
Proof.
  intros Hle. unfold live. apply negb_true_iff.
  destruct (now >? expiry e) eqn:E; [|reflexivity]. apply Z.gtb_lt in E. lia.
Qed.

End ShareFacts.

(** X14.  The quote tool and the quote route work on one store and one key,
    the path with the upper-cased symbol.  After a quote call that returned
    a truthy payload, the route and the tool asked for a symbol with the
    same upper-casing, at a clock reading within the expiry of the entry,
    answer with that payload and send nothing. *)
Theorem quote_entry_is_shared `{Builtins} (env : Env) (key s s' : string)
    (w w1 : World) (d : Payload) :
  getSetting env "finnhubApiKey" = Some key -> Js.truthy_string key = true ->
  finnhub env "/quote" key [("symbol", toUpperCase s)] w = (Return d, w1) ->
  truthy d = true ->
  toUpperCase s' = toUpperCase s ->
  (forall e, cache w1 !! cacheKey "/quote" [("symbol", toUpperCase s)] = Some e ->
             clock env (ticks w1) <= expiry e) ->
  stock_quote env s w = (Return (settle (render_quote (toUpperCase s) d)), w1)
  /\ route_quote env s' w1 = (Return (QuoteJson (toUpperCase s) d), tick w1)
  /\ stock_quote env s' w1
     = (Return (settle (render_quote (toUpperCase s) d)), tick w1).
Proof.
  intros Hs Ht Hcall Hd Hup Hlive.
  destruct (ShareFacts.finnhub_leaves_entry env _ _ _ w w1 d Hcall Hd) as (e & He & <-).
  assert (Hhit : finnhub env "/quote" key [("symbol", toUpperCase s)] w1
                 = (Return (data e), tick w1)).
  { apply CacheFacts.finnhub_hit; auto. apply ShareFacts.live_le. auto. }
  repeat split.
  - unfold stock_quote. cbv zeta.
    apply (ResultFacts.via_finnhub env key _ _ _ w w1 _ Hs Ht Hcall).
  - unfold route_quote, try_catch, bind.
    now rewrite (HandlerFacts.getKey_ok env key w1 Hs Ht), Hup, Hhit.
  - unfold stock_quote. cbv zeta. rewrite Hup.
    apply (ResultFacts.via_finnhub env key _ _ _ w1 (tick w1) _ Hs Ht Hhit).
Qed.

Lemma quote_entry_is_shared_witness :
  let env := still (Success (PQuote a_quote)) in
  let w1 := snd (finnhub env "/quote" "token" [("symbol", @toUpperCase plain "aapl")]
                   fresh) in
  (getSetting env "finnhubApiKey" = Some "token" /\ Js.truthy_string "token" = true
   /\ finnhub env "/quote" "token" [("symbol", @toUpperCase plain "aapl")] fresh
      = (Return (PQuote a_quote), w1)
   /\ truthy (PQuote a_quote) = true
   /\ @toUpperCase plain "Aapl" = @toUpperCase plain "aapl")
  /\ @stock_quote plain env "aapl" fresh
     = (Return (settle (@render_quote plain (@toUpperCase plain "aapl") (PQuote a_quote))),
        w1)
  /\ @route_quote plain env "Aapl" w1
     = (Return (QuoteJson (@toUpperCase plain "aapl") (PQuote a_quote)), tick w1)
  /\ @stock_quote plain env "Aapl" w1
     = (Return (settle (@render_quote plain (@toUpperCase plain "aapl") (PQuote a_quote))),
        tick w1).
Proof.
  cbv zeta. split; [repeat split; reflexivity|].
  apply (@quote_entry_is_shared plain (still (Success (PQuote a_quote))) "token"
           "aapl" "Aapl" fresh); try reflexivity.
  intros e He. vm_compute in He. injection He as <-. vm_compute. discriminate.
Defined.

(** X15.  A key that is missing or the empty string is no key: [getKey]
    throws the configuration error, and both routes answer with it as
    their [error], as the quote tool does as the text of an error result,
    without a clock reading, a request or a change to the store. *)
Theorem no_key_no_call `{Builtins} (env : Env) (w : World) :
  getSetting env "finnhubApiKey" = None
  \/ getSetting env "finnhubApiKey" = Some EmptyString ->
  getKey env w = (Throw CONFIG_MESSAGE, w)
  /\ (forall s, route_quote env s w = (Return (ErrorJson CONFIG_MESSAGE), w))
  /\ (forall q, route_search env q w = (Return (ErrorJson CONFIG_MESSAGE), w))
  /\ (forall s, stock_quote env s w = (Return (err CONFIG_MESSAGE), w)).
Proof.
  intros Hs.
  assert (Hk : getKey env w = (Throw CONFIG_MESSAGE, w)).
  { unfold getKey. destruct Hs as [-> | ->]; reflexivity. }
  repeat split; [exact Hk | | |]; intros.
  - unfold route_quote, try_catch, bind. now rewrite Hk.
  - unfold route_search, try_catch, bind. now rewrite Hk.
  - unfold stock_quote, handler_body, try_catch, bind. now rewrite Hk.
Qed.

Lemma no_key_no_call_witness :
  let env := {| getSetting := fun _ => Some EmptyString; clock := fun _ => 0;
                respond := fun _ _ => Success (PQuote a_quote) |} in
  (getSetting env "finnhubApiKey" = None
   \/ getSetting env "finnhubApiKey" = Some EmptyString)
  /\ getKey env fresh = (Throw CONFIG_MESSAGE, fresh)
  /\ (forall s, @route_quote plain env s fresh
                = (Return (ErrorJson CONFIG_MESSAGE), fresh))
  /\ (forall q, route_search env q fresh
                = (Return (ErrorJson CONFIG_MESSAGE), fresh))
  /\ (forall s, @stock_quote plain env s fresh = (Return (err CONFIG_MESSAGE), fresh)).
Proof.
  cbv zeta. split; [right; reflexivity|].
  apply (@no_key_no_call plain). right. reflexivity.
Defined.

(** ** Series with arrays of different lengths *)

Module SeriesFacts.

Section Points.
  Context `{Builtins} (k : FinnhubCandles) (c : list float).

Lemma candle_point_throws (i : nat) (e : string) :
  candle_point k c i = Throw e -> e = TypeError_message "toLocaleString".
Proof.
  unfold candle_point, formatted.
  destruct (k_o k !! i), (k_h k !! i), (k_l k !! i), (c !! i), (k_v k !! i);
    intros E; inversion E; reflexivity.
Qed.

Lemma candle_point_short (i : nat) (a : list float) :
  a ∈ [k_o k; k_h k; k_l k; c; k_v k] -> (length a <= i)%nat ->
  candle_point k c i = Throw (TypeError_message "toLocaleString").
Proof.
  intros Ha Hlen. apply lookup_ge_None_2 in Hlen.
  destruct (candle_point k c i) as [line|e] eqn:E.
  - exfalso. revert E. unfold candle_point, formatted.
    repeat (apply elem_of_cons in Ha as [-> | Ha]; [rewrite Hlen|]);
      try (now apply elem_of_nil in Ha);
      destruct (k_o k !! i), (k_h k !! i), (k_l k !! i), (c !! i), (k_v k !! i);
      discriminate.
  - f_equal. now apply candle_point_throws with i.
Qed.

Lemma candle_point_full (i : nat) :
  Forall (fun a => (i < length a)%nat) [k_o k; k_h k; k_l k; c; k_v k] ->
  exists line, candle_point k c i = Return line.
Proof.
  intros Hall. unfold candle_point, formatted.
  repeat match goal with
         | H : Forall _ (_ :: _) |- _ =>
             apply Forall_cons in H as [?%lookup_lt_is_Some_2 H]
         end.
  destruct (k_o k !! i), (k_h k !! i), (k_l k !! i), (c !! i), (k_v k !! i);
    try (eexists; reflexivity);
    repeat match goal with H : is_Some None |- _ => now destruct H end.
Qed.

Lemma candle_points_throw (steps i j : nat) (lines : list string) :
  (i <= j < i + steps)%nat ->
  candle_point k c j = Throw (TypeError_message "toLocaleString") ->
  candle_points k c i steps lines = Throw (TypeError_message "toLocaleString").
Proof.
  revert i lines. induction steps as [|steps IH]; intros i lines Hj Hthrow; [lia|].
  simpl. destruct (candle_point k c i) as [line|e] eqn:E.
  - apply IH; [|exact Hthrow]. destruct (decide (j = i)) as [-> |]; [congruence | lia].
  - f_equal. now apply candle_point_throws with i.
Qed.

Lemma candle_points_full (steps i : nat) (lines : list string) :
  (forall j, (i <= j < i + steps)%nat -> exists line, candle_point k c j = Return line) ->
  exists lines', candle_points k c i steps lines = Return lines'.
Proof.
  revert i lines. induction steps as [|steps IH]; intros i lines Hall; simpl; [eauto|].
  destruct (Hall i) as [line ->]; [lia|]. apply IH. intros j Hj. apply Hall. lia.
Qed.

End Points.

End SeriesFacts.

(** X16.  The candles tool reads the closes for the statistics and walks
    the last data points over the opens, highs, lows and volumes by the
    indices of the closes.  For an [ok] series with closes, the rendering
    throws the [TypeError] of reading [toLocaleString] of [undefined], which
    the handler reports as an error result in place of a partial report,
    exactly when one of these four arrays is shorter than the closes; the
    timestamps do not matter. *)
Theorem short_series_is_an_error `{Builtins} (symbol resolution : string)
    (days : float) (k : FinnhubCandles) (first : float) (rest : list float) :
  k_s k = "ok" -> k_c k = Some (first :: rest) ->
  (Exists (fun a => (length a < length (first :: rest))%nat)
          [k_o k; k_h k; k_l k; k_v k] ->
   render_candles symbol resolution days (PCandles k)
   = Throw (TypeError_message "toLocaleString")
   /\ settle (render_candles symbol resolution days (PCandles k))
      = err (TypeError_message "toLocaleString"))
  /\ (Forall (fun a => (length (first :: rest) <= length a)%nat)
             [k_o k; k_h k; k_l k; k_v k] ->
      exists text,
        render_candles symbol resolution days (PCandles k) = Return (ok text)).
Proof.
  intros Hs Hc. unfold render_candles. rewrite Hs, Hc. cbv zeta.
  change (negb ("ok" =? "ok")%string) with false. cbv iota.
  set (c := first :: rest). set (count := length c).
  set (tail := Nat.min 5 count). set (head := _ ++ [_; _]).
  assert (Hcount : (0 < count)%nat) by (subst count c; simpl; lia).
  assert (Htail : (0 < tail <= count)%nat) by (subst tail; lia).
  split.
  - intros Hshort. apply Exists_exists in Hshort as (a & Ha & Hlen).
    rewrite (SeriesFacts.candle_points_throw k c tail (count - tail) (count - 1));
      [split; reflexivity | lia |].
    apply SeriesFacts.candle_point_short with a; [|lia].
    rewrite !elem_of_cons in Ha. rewrite !elem_of_cons. tauto.
  - intros Hfull.
    destruct (SeriesFacts.candle_points_full k c tail (count - tail) head)
      as [lines' ->]; [|eauto].
    intros j Hj. apply SeriesFacts.candle_point_full.
    repeat match goal with
           | H : Forall _ (_ :: _) |- _ => apply Forall_cons in H as [? H]
           end.
    repeat (apply Forall_cons; split); try apply Forall_nil; fold count; lia.
Qed.

Lemma short_series_is_an_error_witness :
  let k := {| k_c := k_c week; k_h := k_h week; k_l := k_l week; k_o := k_o week;
              k_s := "ok"; k_t := k_t week; k_v := [1000; 1200]%float |} in
  (k_s k = "ok" /\ k_c k = Some (100%float :: [101; 99; 102; 104; 103; 106]%float))
  /\ (Exists (fun a => (length a < 7)%nat) [k_o k; k_h k; k_l k; k_v k] ->
      @render_candles plain "AAPL" "D" 30 (PCandles k)
      = Throw (@TypeError_message plain "toLocaleString")
      /\ settle (@render_candles plain "AAPL" "D" 30 (PCandles k))
         = err (@TypeError_message plain "toLocaleString"))
  /\ (Forall (fun a => (7 <= length a)%nat) [k_o k; k_h k; k_l k; k_v k] ->
      exists text, @render_candles plain "AAPL" "D" 30 (PCandles k) = Return (ok text)).
Proof.
  cbv zeta. split; [split; reflexivity|].
  exact (@short_series_is_an_error plain "AAPL" "D" 30%float
           {| k_c := k_c week; k_h := k_h week; k_l := k_l week; k_o := k_o week;
              k_s := "ok"; k_t := k_t week; k_v := [1000; 1200]%float |}
           100%float [101; 99; 102; 104; 103; 106]%float eq_refl eq_refl).
Defined.

(** ** The articles shown *)

Module NewsFacts.

Lemma digits2_pos_bounds (m : positive) :
  2 ^ (Z.pos (digits2_pos m) - 1) <= Z.pos m < 2 ^ Z.pos (digits2_pos m).
Proof.
  induction m as [p IH | p IH |]; simpl digits2_pos; [| |simpl; lia].
  all: rewrite Pos2Z.inj_succ;
    replace (Z.succ (Z.pos (digits2_pos p)) - 1)
      with (Z.succ (Z.pos (digits2_pos p) - 1)) by lia;
    rewrite !Z.pow_succ_r by lia; lia.
Qed.

  (** [slice(0, e)] for a number between 1 and 20 takes between 1 and 20
      elements: the whole part of [e]. *)
Lemma whole_part (e : float) :
  PrimFloat.leb 1 e = true -> PrimFloat.leb e 20 = true ->
  exists n, (1 <= n <= 20)%nat /\ forall A (l : list A), Js.slice_to e l = take n l.
Proof.
  rewrite !FloatAxioms.leb_spec. intros Hlo Hhi.
  pose proof (FloatAxioms.Prim2SF_valid e) as Hv.
  unfold Js.slice_to.
  destruct (Prim2SF e) as [s | s | | s m x];
    try discriminate; try (destruct s; discriminate).
  destruct s; [discriminate|].
  exists (Z.to_nat (Z.shiftl (Z.pos m) x)). split; [|reflexivity].
  change (Prim2SF 1) with (S754_finite false 4503599627370496 (-52)) in Hlo.
  change (Prim2SF 20) with (S754_finite false 5629499534213120 (-48)) in Hhi.
  unfold SFleb, SFcompare in Hlo, Hhi.
  unfold valid_binary, bounded, canonical_mantissa, fexp in Hv.
  apply andb_prop in Hv as [Hc _]. apply Z.eqb_eq in Hc.
  pose proof (digits2_pos_bounds m) as Hm.
  rewrite Pos.compare_cont_spec in Hlo, Hhi.
  assert (Hx : -52 <= x <= -48).
  { destruct (Z.compare_spec (-52) x), (Z.compare_spec x (-48)); try discriminate; lia. }
  assert (Hd : Z.pos (digits2_pos m) = 53) by (unfold prec, emin, emax in Hc; lia).
  rewrite Hd in Hm. change (2 ^ (53 - 1)) with 4503599627370496 in Hm.
  change (2 ^ 53) with 9007199254740992 in Hm.
  assert (Htop : x = -48 -> Z.pos m <= 5629499534213120).
  { intros ->. rewrite Z.compare_refl in Hhi.
    destruct (Pos.compare_spec m 5629499534213120) as [Hp | Hp | Hp];
      [ rewrite Hp; apply Z.le_refl
      | apply Z.lt_le_incl, Pos2Z.pos_lt_pos, Hp
      | discriminate Hhi ]. }
  replace (Z.shiftl (Z.pos m) x) with (Z.shiftr (Z.pos m) (- x))
    by (unfold Z.shiftr; now rewrite Z.opp_involutive).
  rewrite Z.shiftr_div_pow2 by lia.
  assert (Hcase : x = -52 \/ x = -51 \/ x = -50 \/ x = -49 \/ x = -48) by lia.
  destruct Hcase as [-> | [-> | [-> | [-> | ->]]]];
    [ change (2 ^ (- -52)) with 4503599627370496
    | change (2 ^ (- -51)) with 2251799813685248
    | change (2 ^ (- -50)) with 1125899906842624
    | change (2 ^ (- -49)) with 562949953421312
    | change (2 ^ (- -48)) with 281474976710656 ];
    try specialize (Htop eq_refl); clear - Hm Htop; Z.div_mod_to_equations; lia.
Qed.

Lemma news_limit_range (x : option float) :
  PrimFloat.leb 1 (news_limit x) = true /\ PrimFloat.leb (news_limit x) 20 = true.
Proof.
  unfold news_limit, Js.or_number. destruct x as [d|]; [|split; reflexivity].
  destruct (Js.truthy_number d) eqn:Ht; [|split; reflexivity].
  apply ClampFacts.truthy_nan_free in Ht.
  rewrite (ClampFacts.min_max_clamp _ _ d) by (exact Ht || reflexivity).
  apply ClampFacts.clamp_range; (exact Ht || reflexivity).
Qed.

Lemma pushed {A B} (f : A -> list B) (l : list A) (lines : list B) :
  fold_left (fun lines a => lines ++ f a) l lines = lines ++ concat (map f l).
Proof.
  revert lines. induction l as [|a l IH]; intros lines; simpl.
  - now rewrite app_nil_r.
  - now rewrite IH, app_assoc.
Qed.

End NewsFacts.

(** X17.  Whatever [limit] the caller passes, the news tool shows a prefix
    of the articles it received of at least one and at most twenty of them
    (the first five when no limit is passed), in the order received, under
    one heading: the text is the heading followed by the lines of these
    articles. *)
Theorem news_shows_a_prefix `{Builtins} (x : option float) (symbol : option string)
    (first : FinnhubNewsItem) (rest : list FinnhubNewsItem) :
  exists n,
    (1 <= n <= 20)%nat
    /\ (x = None -> n = 5%nat)
    /\ Js.slice_to (news_limit x) (first :: rest) = take n (first :: rest)
    /\ render_news symbol (news_limit x) (PNews (first :: rest))
       = Return (ok (Js.join nl
           (if_symbol symbol (fun s => "News for " +:+ s +:+ ":") "Market News:"
            :: concat (map article_lines (take n (first :: rest)))))).
Proof.
  assert (Hn : exists n, (1 <= n <= 20)%nat /\ (x = None -> n = 5%nat)
                 /\ forall A (l : list A), Js.slice_to (news_limit x) l = take n l).
  { destruct x as [d|].
    - destruct (NewsFacts.news_limit_range (Some d)) as [Hlo Hhi].
      destruct (NewsFacts.whole_part _ Hlo Hhi) as (n & Hn & Hslice).
      exists n. repeat split; try apply Hn; [discriminate | exact Hslice].
    - exists 5%nat. repeat split; try lia. }
  destruct Hn as (n & Hn & Hdefault & Hslice). exists n.
  repeat split; try apply Hn; [exact Hdefault | apply Hslice |].
  unfold render_news. cbv zeta. rewrite Hslice, NewsFacts.pushed. reflexivity.
Qed.

(** ** Keys of different endpoints *)

Module PathFacts.
  #[local] Arguments String.append !_ _ / : simpl nomatch.

Lemma first_occurrence (c : ascii) (s1 s2 r1 r2 : string) :
  has_char c s1 = false -> has_char c s2 = false ->
  s1 +:+ String c r1 = s2 +:+ String c r2 -> s1 = s2 /\ r1 = r2.
Proof.
  revert s2. induction s1 as [|a s1 IH]; intros [|b s2]; simpl; intros H1 H2 E.
  - now injection E as ->.
  - injection E as <- _. apply orb_false_elim in H2 as [H2 _].
    now rewrite Ascii.eqb_refl in H2.
  - injection E as -> _. apply orb_false_elim in H1 as [H1 _].
    now rewrite Ascii.eqb_refl in H1.
  - injection E as -> E. apply orb_false_elim in H1 as [_ H1].
    apply orb_false_elim in H2 as [_ H2].
    destruct (IH s2 H1 H2 E) as [-> ->]. auto.
Qed.

End PathFacts.

(** X18.  The key of an entry is the path, a question mark and the
    serialised parameters.  For paths without a question mark, as all the
    paths of the handlers are, two calls have the same key only if they have
    the same path and the same parameters in the same order: entries of
    different endpoints never answer for one another. *)
Theorem endpoints_never_collide (p1 p2 : string) (o1 o2 : Js.Record_string) :
  has_char "?" p1 = false -> has_char "?" p2 = false ->
  cacheKey p1 o1 = cacheKey p2 o2 -> p1 = p2 /\ o1 = o2.
Proof.
  intros H1 H2 E. unfold cacheKey in E.
  change ("?" +:+ Js.JSON_stringify o1) with (String "?" (Js.JSON_stringify o1)) in E.
  change ("?" +:+ Js.JSON_stringify o2) with (String "?" (Js.JSON_stringify o2)) in E.
  destruct (PathFacts.first_occurrence _ _ _ _ _ H1 H2 E) as [-> Ho].
  split; [reflexivity | now apply KeyFacts.JSON_stringify_inj].
Qed.

Lemma endpoints_never_collide_witness :
  (Forall (fun p => has_char "?" p = false)
          ["/quote"; "/search"; "/stock/profile2"; "/stock/candle"; "/company-news";
           "/news"; "/stock/peers"; "/stock/metric"]
   /\ cacheKey "/quote" [("symbol", "AAPL")] = cacheKey "/quote" [("symbol", "AAPL")])
  /\ "/quote" = "/quote" /\ [("symbol", "AAPL")] = [("symbol", "AAPL")].
Proof.
  split; [split; [repeat constructor | reflexivity]|].
  apply (endpoints_never_collide "/quote" "/quote"); reflexivity.
Defined.

(** ** Peers that are the symbol itself *)

Module SelfFacts.

Lemma topPeers_self (symbol : string) (peers : list string) :
  Forall (fun x => x = symbol) peers -> topPeers symbol peers = [].
Proof.
  intros Hall. unfold topPeers.
  replace (List.filter (fun p => negb (p =? symbol)%string) peers) with (@nil string);
    [reflexivity|].
  induction Hall as [|x l -> _ IH]; simpl; [reflexivity|].
  now rewrite String.eqb_refl.
Qed.

End SelfFacts.

(** X19.  A list of peers that holds nothing but the symbol itself is not
    taken for the empty list.  For the empty list the result is an error
    ([isError] true) with the text [No peers found for "SYMBOL".]; for a
    list of one or more copies of the symbol the handler filters them out,
    asks no quote, and returns a success ([isError] false) whose text is the
    heading with no line under it. *)
Theorem peers_of_itself `{Builtins} (env : Env) (key symbol : string)
    (peers : list string) (order : list nat) (w w1 : World) :
  getSetting env "finnhubApiKey" = Some key -> Js.truthy_string key = true ->
  finnhub env "/stock/peers" key
    [("symbol", toUpperCase symbol); ("grouping", "industry")] w
  = (Return (PPeers peers), w1) ->
  Forall (fun x => x = toUpperCase symbol) peers ->
  stock_peers env order symbol w
  = (Return
       match peers with
       | [] =>
           {| content := [{| type_ := "text";
                             text := "No peers found for " +:+ dq
                                     +:+ toUpperCase symbol +:+ dq +:+ "." |}];
              isError := true |}
       | _ :: _ =>
           {| content := [{| type_ := "text";
                             text := "Peers of " +:+ toUpperCase symbol +:+ ":"
                                     +:+ nl |}];
              isError := false |}
       end, w1).
Proof.
  intros Hs Ht Hcall Hall.
  unfold stock_peers, handler_body, try_catch, bind. cbv zeta.
  rewrite (HandlerFacts.getKey_ok env key w Hs Ht), Hcall.
  destruct peers as [|p ps]; [reflexivity|].
  rewrite (SelfFacts.topPeers_self _ _ Hall).
  unfold Promise_all, bind. simpl begin_all. unfold ret at 1.
  pose proof (MissingKey.resume_in_order_settled (peers_resume env) (fun x => x)
                [] order w1) as Hr.
  simpl in Hr. rewrite Hr. reflexivity.
Qed.

Lemma peers_of_itself_witness :
  let env := still (Success (PPeers ["AAPL"; "AAPL"])) in
  let w1 := snd (finnhub env "/stock/peers" "token"
                   [("symbol", @toUpperCase plain "aapl"); ("grouping", "industry")]
                   fresh) in
  (getSetting env "finnhubApiKey" = Some "token" /\ Js.truthy_string "token" = true
   /\ finnhub env "/stock/peers" "token"
        [("symbol", @toUpperCase plain "aapl"); ("grouping", "industry")] fresh
      = (Return (PPeers ["AAPL"; "AAPL"]), w1)
   /\ Forall (fun x => x = @toUpperCase plain "aapl") ["AAPL"; "AAPL"])
  /\ @stock_peers plain env [] "aapl" fresh
     = (Return {| content := [{| type_ := "text";
                                 text := "Peers of " +:+ @toUpperCase plain "aapl"
                                         +:+ ":" +:+ nl |}];
                  isError := false |}, w1).
Proof.
  cbv zeta. split; [repeat split; repeat constructor|].
  apply (@peers_of_itself plain (still (Success (PPeers ["AAPL"; "AAPL"]))) "token"
           "aapl" ["AAPL"; "AAPL"] [] fresh); try reflexivity.
  repeat constructor.
Defined.

(** ** Numbers that get no suffix *)

Module SuffixFacts.
  Import FloatFacts.

Lemma ltb_not_leb (x y : float) :
  PrimFloat.ltb x y = true -> PrimFloat.leb y x = false.
Proof.
  rewrite FloatAxioms.ltb_spec, FloatAxioms.leb_spec. unfold SFltb, SFleb.
  rewrite (SFcompare_swap (Prim2SF x) (Prim2SF y)).
  destruct (SFcompare (Prim2SF x) (Prim2SF y)) as [[]|];
    simpl; congruence.
Qed.

Lemma below (a b n : float) :
  PrimFloat.leb a b = true -> PrimFloat.leb a n = false -> PrimFloat.leb b n = false.
Proof.
  intros Hab Han. destruct (PrimFloat.leb b n) eqn:E; [|reflexivity].
  now rewrite (leb_trans a b n Hab E) in Han.
Qed.

Lemma nan_not_above (a n : float) :
  PrimFloat.is_nan n = true -> PrimFloat.leb a n = false.
Proof.
  intros Hn. destruct (PrimFloat.leb a n) eqn:E; [|reflexivity].
  apply leb_nan_free in E as [_ E]. unfold nan_free in E. congruence.
Qed.

End SuffixFacts.

(** X20.  [formatLargeNumber] abbreviates from a million up only: a number
    below a million, every negative number among them however large its
    magnitude, and [NaN] are rendered by [toLocaleString] with no suffix. *)
Theorem no_suffix_below_a_million `{Builtins} (n : float) :
  PrimFloat.ltb n 1e6 = true \/ PrimFloat.is_nan n = true ->
  formatLargeNumber n = toLocaleString n.
Proof.
  intros Hn.
  assert (H6 : PrimFloat.leb 1e6 n = false).
  { destruct Hn as [Hn | Hn];
      [now apply SuffixFacts.ltb_not_leb | now apply SuffixFacts.nan_not_above]. }
  assert (H9 : PrimFloat.leb 1e9 n = false)
    by (apply (SuffixFacts.below 1e6); [reflexivity | exact H6]).
  assert (H12 : PrimFloat.leb 1e12 n = false)
    by (apply (SuffixFacts.below 1e6); [reflexivity | exact H6]).
  unfold formatLargeNumber. now rewrite H12, H9, H6.
Qed.

Lemma no_suffix_below_a_million_witness :
  (PrimFloat.ltb (-5e12) 1e6 = true \/ PrimFloat.is_nan (-5e12) = true)
  /\ @formatLargeNumber plain (-5e12) = @toLocaleString plain (-5e12).
Proof.
  split; [left; reflexivity|].
  apply (@no_suffix_below_a_million plain). left. reflexivity.
Defined.
